(** * Hybrid retrieval, ranking and conversation memory

    A shallow embedding of the retrieval-quality analysis
    ([retriever_enhanced.py]), of the web adapter and the
    deduplicate-and-rank step ([web_search_integration.py]) and of the
    conversation memory ([conversation_memory.py]), with the properties
    that the specification states about them.

    Python values are modelled as follows: [str] is the list of its
    Unicode code points (so [length] is Python's [len]), an [int] is a
    [Z], a [float] is an exact rational [Q], a [dict] with string keys is
    a [gmap], a [set] of strings is a [gset], a list is a [list]. *)

From Stdlib Require Import ZArith NArith QArith Qminmax Lia String Ascii.
From stdpp Require Import gmap strings list sorting pretty.

#[local] Set Warnings "-clear-no-such-hyp".

Close Scope Q_scope.
Open Scope Z_scope.
Open Scope nat_scope.

(** ** Python strings and slices *)

Module Py.

Abbreviation str := (list N).

(** Source literals are written as UTF-8 text and decoded into code
    points; [decode pending acc bs] consumes the bytes [bs], [pending]
    continuation bytes being still due for the code point [acc]. *)
Fixpoint decode (pending : nat) (acc : N) (bs : list N) : str :=
  match bs with
  | [] => []
  | b :: bs' =>
      match pending with
      | O =>
          if (b <? 128)%N then b :: decode 0 0%N bs'
          else if (b <? 224)%N then decode 1 (b - 192)%N bs'
          else if (b <? 240)%N then decode 2 (b - 224)%N bs'
          else decode 3 (b - 240)%N bs'
      | S O => (acc * 64 + (b - 128))%N :: decode 0 0%N bs'
      | S p => decode p (acc * 64 + (b - 128))%N bs'
      end
  end.

Definition u (s : string) : str :=
  decode 0 0%N (map N_of_ascii (list_ascii_of_string s)).

Definition newline : N := 10%N.

(** [lower] folds the ASCII capitals.  Python's [str.lower] also folds
    cased letters outside ASCII; the program only ever looks for its
    fixed vocabulary (ASCII lower-case words without the letter k, and
    Chinese words) inside a lowered text, and no code point outside
    ASCII lowers to a letter that can complete such a word, so the two
    agree on every test the program makes. *)
Definition lower_char (c : N) : N :=
  if ((65 <=? c) && (c <=? 90))%N then (c + 32)%N else c.

Definition lower (s : str) : str := map lower_char s.

Fixpoint startswith (s p : str) : bool :=
  match p, s with
  | [], _ => true
  | _ :: _, [] => false
  | a :: p', b :: s' => (a =? b)%N && startswith s' p'
  end.

(** [contains s p] is Python's [p in s]. *)
Fixpoint contains (s p : str) : bool :=
  startswith s p ||
  match s with
  | [] => false
  | _ :: s' => contains s' p
  end.

(** [slice_to n l] is [l[:n]] for a non-negative literal [n]. *)
Definition slice_to {A} (n : nat) (l : list A) : list A := take n l.

(** [slice_last n l] is [l[-n:]]: the start index [-n] counts from the
    end when it is negative, and from the front otherwise; in
    particular [l[-0:]] is [l[0:]], the whole list. *)
Definition slice_last {A} (n : Z) (l : list A) : list A :=
  if (0 <? n)%Z then drop (length l - Z.to_nat n) l
  else drop (Z.to_nat (- n)) l.

(** [join sep parts] is [sep.join(parts)]. *)
Fixpoint join (sep : str) (parts : list str) : str :=
  match parts with
  | [] => []
  | [p] => p
  | p :: ps => p ++ sep ++ join sep ps
  end.

(** Decimal rendering of a number, as [str(n)] or an f-string does. *)
Definition str_of_nat (n : nat) : str := u (pretty n).

(** [index x l] is [l.index(x)]: the position of the first element
    equal to [x].  Python raises [ValueError] when there is none; the
    program only asks for elements taken from the list itself, and the
    length of the list stands for the unreachable case. *)
Fixpoint index `{EqDecision A} (x : A) (l : list A) : nat :=
  match l with
  | [] => 0
  | y :: l' => if decide (y = x) then 0 else S (index x l')
  end.

End Py.

Import Py.

(** ** Documents

    A retrieved passage: its text and its metadata dictionary (the
    [Document] of the retrieval library).  Metadata values are modelled
    as strings, which is what the program stores and compares. *)

Record Document := {
  page_content : str;
  metadata : gmap str str
}.

#[global] Instance Document_eq_dec : EqDecision Document.
Proof. solve_decision. Defined.

(** [d.get(k, dflt)] on a dictionary. *)
Definition dict_get (d : gmap str str) (k dflt : str) : str :=
  default dflt (d !! k).

(** [metadata.get("source_type")] *)
Definition source_type (doc : Document) : option str :=
  metadata doc !! u "source_type".

(** ** retriever_enhanced.py *)

Module retriever_enhanced.

Record QualityReport := {
  query : str;
  num_results : nat;
  avg_content_length : Q;
  quality_score : Q;
  recommendations : list str;
  (* the report on an empty list has no preview entry *)
  documents_preview : option (list str)
}.

(** [np.mean] of a non-empty list of lengths. *)
Definition mean (ns : list nat) : Q :=
  (inject_Z (Z.of_nat (sum_list ns)) / inject_Z (Z.of_nat (length ns)))%Q.

Definition Qltb (a b : Q) : bool :=
  match (a ?= b)%Q with Lt => true | _ => false end.

Definition analyze_retrieval_quality (query : str) (docs : list Document)
  : QualityReport :=
  match docs with
  | [] =>
      {| query := query;
         num_results := 0;
         avg_content_length := 0%Q;
         quality_score := 0%Q;
         recommendations := [u "未检索到文档，请检查查询或知识库"];
         documents_preview := None |}
  | _ :: _ =>
      let content_lengths := map (fun doc => length (page_content doc)) docs in
      let avg_length := mean content_lengths in
      let quality_score :=
        Qmin 100 (inject_Z (Z.of_nat (length docs * 20)) + avg_length / 20)%Q in
      let recommendations :=
        (if bool_decide (length docs < 3)
         then [u "检索结果较少，考虑降低相似度阈值"] else [])
        ++ (if Qltb avg_length 100
            then [u "文档片段较短，可能缺乏上下文"] else [])
        ++ (if Qltb quality_score 60
            then [u "检索质量偏低，建议优化查询或检索策略"] else []) in
      {| query := query;
         num_results := length docs;
         avg_content_length := avg_length;
         quality_score := quality_score;
         recommendations := recommendations;
         documents_preview :=
           Some (map (fun doc => slice_to 100 (page_content doc) ++ u "...")
                     (slice_to 3 docs)) |}
  end.

End retriever_enhanced.

(** ** web_search_integration.py *)

Module web_search_integration.

(** A search engine, seen through [engine.search(query, max_results)]:
    a list of raw result dictionaries, or [None] when the call raises. *)
Definition Engine : Type := str -> Z -> option (list (gmap str str)).

(** The local retriever, seen through
    [get_relevant_documents(query, method="enhanced")]; [None] when the
    call raises. *)
Definition LocalRetriever : Type := str -> option (list Document).

Record HybridRAGSystem := {
  local_retriever : option LocalRetriever;
  enable_web_search : bool;
  search_engines : list Engine
}.

Definition _enhance_query (query : str) : str :=
  if existsb (fun keyword => contains (lower query) keyword)
       [u "英语"; u "语法"; u "用法"; u "时态"; u "冠词"]
  then
    if bool_decide (length query < 20)
    then query ++ u " English grammar rules examples"
    else query
  else query.

(** The body of the loop over one engine's results: the document built
    from a raw result, when the result passes the length filter. *)
Definition result_document (enhanced_query : str) (result : gmap str str)
  : option Document :=
  let content := dict_get result (u "content") [] in
  let title := dict_get result (u "title") [] in
  let url := dict_get result (u "url") [] in
  let source := dict_get result (u "source") (u "web") in
  if bool_decide (content <> []) && bool_decide (50 < length content) then
    Some {| page_content := content;
            metadata :=
              <[u "source" := url]>
              (<[u "title" := title]>
              (<[u "source_type" := u "web"]>
              (<[u "engine" := source]>
              (<[u "query" := enhanced_query]> ∅)))) |}
  else None.

Definition append_result (enhanced_query : str) (web_docs : list Document)
    (result : gmap str str) : list Document :=
  match result_document enhanced_query result with
  | Some doc => web_docs ++ [doc]
  | None => web_docs
  end.

(** One round of the loop over the engines; an engine that raises
    contributes nothing.  The pause between engines is not modelled. *)
Definition search_engine (enhanced_query : str) (max_results_per_engine : Z)
    (web_docs : list Document) (engine : Engine) : list Document :=
  match engine enhanced_query max_results_per_engine with
  | Some results => foldl (append_result enhanced_query) web_docs results
  | None => web_docs
  end.

Definition _web_search (self : HybridRAGSystem) (query : str)
    (max_results_per_engine : Z) : list Document :=
  let enhanced_query := _enhance_query query in
  foldl (search_engine enhanced_query max_results_per_engine) []
        (search_engines self).

(** The deduplication key of a document: [doc.page_content[:100]]. *)
Definition content_key (doc : Document) : str :=
  slice_to 100 (page_content doc).

(** The body of both deduplication loops, on the pair
    [(unique_docs, seen_content)]. *)
Definition add_unique (st : list Document * gset str) (doc : Document)
  : list Document * gset str :=
  let content := content_key doc in
  if decide (content ∈ st.2) then st
  else (st.1 ++ [doc], {[content]} ∪ st.2).

Definition local_of (docs : list Document) : list Document :=
  filter (fun doc => source_type doc = Some (u "local")) docs.

Definition web_of (docs : list Document) : list Document :=
  filter (fun doc => source_type doc = Some (u "web")) docs.

(** The deduplicated list before the final cut. *)
Definition unique_docs (docs : list Document) : list Document :=
  (foldl add_unique (foldl add_unique ([], ∅) (local_of docs)) (web_of docs)).1.

Definition _deduplicate_and_rank (docs : list Document) : list Document :=
  slice_to 8 (unique_docs docs).

(** What the two loops compute, as a function of the keys already seen:
    the documents whose key has not occurred before, in order. *)
Fixpoint keep_first (seen : gset str) (docs : list Document) : list Document :=
  match docs with
  | [] => []
  | doc :: docs' =>
      if decide (content_key doc ∈ seen) then keep_first seen docs'
      else doc :: keep_first ({[content_key doc]} ∪ seen) docs'
  end.

Definition content_keys (docs : list Document) : gset str :=
  list_to_set (map content_key docs).

(** [has_key k doc]: the first 100 characters of [doc] are [k]. *)
Definition has_key (k : str) (doc : Document) : Prop := content_key doc = k.

#[global] Instance has_key_dec k doc : Decision (has_key k doc).
Proof. unfold has_key. apply _. Defined.

(** [doc.metadata.update({...})] on a local document. *)
Definition tag_local (doc : Document) : Document :=
  {| page_content := page_content doc;
     metadata :=
       <[u "source_type" := u "local"]>
       (<[u "retrieval_method" := u "vector_search"]> (metadata doc)) |}.

Definition search_and_retrieve (self : HybridRAGSystem) (query : str)
    (use_local use_web : bool) : list Document :=
  let all_docs :=
    match (if use_local then local_retriever self else None) with
    | Some retriever =>
        match retriever query with
        | Some local_docs => map tag_local local_docs
        | None => []
        end
    | None => []
    end in
  let all_docs :=
    if use_web && enable_web_search self
    then all_docs ++ _web_search self query 2
    else all_docs in
  _deduplicate_and_rank all_docs.

End web_search_integration.

(** ** conversation_memory.py *)

Module conversation_memory.

(** A naive [datetime]; [datetime.now()] is an input of the operations
    that read the clock. *)
Record datetime := {
  year : N; month : N; day : N;
  hour : N; minute : N; second : N; microsecond : N
}.

#[global] Instance datetime_eq_dec : EqDecision datetime.
Proof. solve_decision. Defined.

(** A number in decimal, zero-padded to [width] digits. *)
Definition zpad (width : nat) (n : N) : str :=
  let digits := u (pretty n) in
  replicate (width - length digits) 48%N ++ digits.

(** [strftime("%H:%M")] *)
Definition strftime_HM (t : datetime) : str :=
  zpad 2 (hour t) ++ u ":" ++ zpad 2 (minute t).

(** [strftime("%Y%m%d_%H%M%S")] *)
Definition strftime_session (t : datetime) : str :=
  zpad 4 (year t) ++ zpad 2 (month t) ++ zpad 2 (day t) ++ u "_"
  ++ zpad 2 (hour t) ++ zpad 2 (minute t) ++ zpad 2 (second t).

(** [strftime('%Y-%m-%d %H:%M:%S')] *)
Definition strftime_full (t : datetime) : str :=
  zpad 4 (year t) ++ u "-" ++ zpad 2 (month t) ++ u "-" ++ zpad 2 (day t)
  ++ u " " ++ zpad 2 (hour t) ++ u ":" ++ zpad 2 (minute t) ++ u ":"
  ++ zpad 2 (second t).

(** [isoformat()] *)
Definition isoformat (t : datetime) : str :=
  zpad 4 (year t) ++ u "-" ++ zpad 2 (month t) ++ u "-" ++ zpad 2 (day t)
  ++ u "T" ++ zpad 2 (hour t) ++ u ":" ++ zpad 2 (minute t) ++ u ":"
  ++ zpad 2 (second t)
  ++ (if (microsecond t =? 0)%N then [] else u "." ++ zpad 6 (microsecond t)).

Record ConversationTurn := {
  user_query : str;
  ai_response : str;
  timestamp : datetime;
  session_id : str;
  metadata : gmap str str;
  retrieved_docs : list str;
  context_summary : str;
  keywords : list str
}.

(** Equality of turns is the field-wise equality of the dataclass. *)
#[global] Instance ConversationTurn_eq_dec : EqDecision ConversationTurn.
Proof. solve_decision. Defined.

(** The history file: either not a readable JSON document, or a list of
    turn records, a record being [None] when building a turn from it
    raises (a missing mandatory key, a malformed timestamp). *)
Inductive HistoryFile :=
  | Unreadable
  | Records (records : list (option ConversationTurn)).

(** The files of the working directory, by name. *)
Abbreviation Files := (gmap str HistoryFile).

Record ConversationMemory := {
  max_history : Z;
  max_context_length : Z;
  memory_file : str;
  conversation_history : list ConversationTurn;
  current_session_id : str
}.

Definition set_history (self : ConversationMemory)
    (history : list ConversationTurn) : ConversationMemory :=
  {| max_history := max_history self;
     max_context_length := max_context_length self;
     memory_file := memory_file self;
     conversation_history := history;
     current_session_id := current_session_id self |}.

Definition _generate_session_id (now : datetime) : str :=
  strftime_session now.

Definition english_grammar_terms : list str :=
  [u "present perfect"; u "past tense"; u "future tense"; u "conditionals";
   u "articles"; u "prepositions"; u "conjunctions"; u "verbs"; u "nouns";
   u "adjectives"; u "adverbs"; u "pronouns"; u "tense"; u "aspect";
   u "grammar"; u "syntax"; u "clause"; u "phrase"; u "sentence"].

Definition chinese_grammar_terms : list str :=
  [u "现在完成时"; u "过去时"; u "将来时"; u "虚拟语气";
   u "冠词"; u "介词"; u "连词"; u "动词"; u "名词";
   u "形容词"; u "副词"; u "代词"; u "时态"; u "体态";
   u "语法"; u "句法"; u "从句"; u "短语"; u "句子"].

(** The terms of the vocabulary found in the text.  The vocabulary has
    no repeated term, so [list(set(keywords))] only reorders the list,
    in an order Python leaves unspecified; the list is kept in
    vocabulary order here, as one of the lists that a call may return:
    the others are its rearrangements, and what is stated of the
    keywords of a text is stated up to rearrangement. *)
Definition _extract_keywords (text : str) : list str :=
  let text_lower := lower text in
  filter (fun term => contains text_lower (lower term) = true)
         (english_grammar_terms ++ chinese_grammar_terms).

Definition _extract_main_topic (text : str) : str :=
  let topics :=
    [u "时态"; u "语法"; u "冠词"; u "虚拟语气"; u "条件句"; u "从句"] in
  let text_lower := lower text in
  match filter (fun topic => contains text_lower topic = true) topics with
  | topic :: _ => topic
  | [] => u "英语语法"
  end.

Definition _generate_summary (user_query ai_response : str) : str :=
  u "用户询问了关于" ++ _extract_main_topic user_query ++ u "的问题".

(** Writing the file replaces its content by the records of the whole
    history.  (A write that fails is caught and leaves the history as it
    is; it is not modelled.) *)
Definition _save_history (self : ConversationMemory) (files : Files) : Files :=
  <[memory_file self := Records (map Some (conversation_history self))]> files.

(** The loop of [_load_history] over the records: a record that raises
    ends the load, the turns appended before it stay. *)
Fixpoint load_records (records : list (option ConversationTurn))
  : list ConversationTurn :=
  match records with
  | Some turn :: records' => turn :: load_records records'
  | _ => []
  end.

Definition _load_history (self : ConversationMemory) (files : Files)
  : ConversationMemory :=
  match files !! memory_file self with
  | Some (Records history_data) =>
      set_history self
        (conversation_history self
         ++ load_records (slice_last (max_history self) history_data))
  | _ => self
  end.

Definition __init__ (max_history max_context_length : Z) (memory_file : str)
    (now : datetime) (files : Files) : ConversationMemory :=
  _load_history
    {| max_history := max_history;
       max_context_length := max_context_length;
       memory_file := memory_file;
       conversation_history := [];
       current_session_id := _generate_session_id now |}
    files.

Definition add_conversation_turn (self : ConversationMemory) (now : datetime)
    (user_query ai_response : str) (metadata : option (gmap str str))
    (retrieved_docs : option (list str)) (files : Files)
  : ConversationMemory * Files :=
  let turn :=
    {| user_query := user_query;
       ai_response := ai_response;
       timestamp := now;
       session_id := current_session_id self;
       metadata := default ∅ metadata;
       retrieved_docs := default [] retrieved_docs;
       keywords := _extract_keywords (user_query ++ u " " ++ ai_response);
       context_summary := _generate_summary user_query ai_response |} in
  let history := conversation_history self ++ [turn] in
  let history :=
    if bool_decide (max_history self < Z.of_nat (length history))%Z
    then slice_last (max_history self) history
    else history in
  let self := set_history self history in
  (self, _save_history self files).

(** The arguments of one call of [add_conversation_turn], with the
    clock reading of that call. *)
Record Call := {
  call_now : datetime;
  call_user_query : str;
  call_ai_response : str;
  call_metadata : option (gmap str str);
  call_retrieved_docs : option (list str)
}.

Definition add_call (st : ConversationMemory * Files) (c : Call)
  : ConversationMemory * Files :=
  add_conversation_turn st.1 (call_now c) (call_user_query c)
    (call_ai_response c) (call_metadata c) (call_retrieved_docs c) st.2.

Definition add_calls (st : ConversationMemory * Files) (calls : list Call)
  : ConversationMemory * Files :=
  foldl add_call st calls.

(** The turn that a call appends in the session [session]. *)
Definition turn_of (session : str) (c : Call) : ConversationTurn :=
  {| user_query := call_user_query c;
     ai_response := call_ai_response c;
     timestamp := call_now c;
     session_id := session;
     metadata := default ∅ (call_metadata c);
     retrieved_docs := default [] (call_retrieved_docs c);
     keywords :=
       _extract_keywords (call_user_query c ++ u " " ++ call_ai_response c);
     context_summary :=
       _generate_summary (call_user_query c) (call_ai_response c) |}.

Definition _format_context_turn (turn : ConversationTurn) : str :=
  let time_str := strftime_HM (timestamp turn) in
  u "**[" ++ time_str ++ u "] 用户:** " ++ user_query turn
  ++ [newline] ++ u "**助手:** " ++ ai_response turn.

(** A stable sort by decreasing score, as [sort(key=..., reverse=True)]:
    elements of equal score keep their order. *)
Fixpoint insert_desc {A} (x : Z * A) (l : list (Z * A)) : list (Z * A) :=
  match l with
  | [] => [x]
  | y :: l' => if (x.1 <? y.1)%Z then y :: insert_desc x l' else x :: l
  end.

Definition sort_desc {A} (l : list (Z * A)) : list (Z * A) :=
  foldr insert_desc [] l.

(** The score of one turn in [_get_relevant_context]. *)
Definition total_score (self : ConversationMemory) (current_keywords : gset str)
    (turn : ConversationTurn) : Z :=
  let turn_keywords : gset str := list_to_set (keywords turn) in
  let overlap := Z.of_nat (size (current_keywords ∩ turn_keywords)) in
  let recency_score :=
    (Z.of_nat (length (conversation_history self))
     - Z.of_nat (index turn (conversation_history self)))%Z in
  (overlap * 2 + recency_score)%Z.

Definition _get_relevant_context (self : ConversationMemory)
    (current_query : str) : list ConversationTurn :=
  match conversation_history self with
  | [] => []
  | _ :: _ =>
      let current_keywords : gset str :=
        list_to_set (_extract_keywords current_query) in
      let scored_turns :=
        map (fun turn => (total_score self current_keywords turn, turn))
            (slice_last 5 (conversation_history self)) in
      map snd (sort_desc scored_turns)
  end.

(** The loop of [get_context_for_query] over the relevant turns, with
    its [break]. *)
Fixpoint collect_context (max_length : Z) (context_parts : list str)
    (current_length : Z) (turns : list ConversationTurn) : list str :=
  match turns with
  | [] => context_parts
  | turn :: turns' =>
      let context_snippet := _format_context_turn turn in
      if bool_decide
           (max_length < current_length + Z.of_nat (length context_snippet))%Z
      then context_parts
      else collect_context max_length (context_parts ++ [context_snippet])
             (current_length + Z.of_nat (length context_snippet))%Z turns'
  end.

(** [max_length or self.max_context_length]: an absent and a zero
    [max_length] both select the configured length. *)
Definition effective_max_length (self : ConversationMemory)
    (max_length : option Z) : Z :=
  match max_length with
  | Some n => if (n =? 0)%Z then max_context_length self else n
  | None => max_context_length self
  end.

Definition context_parts_for (self : ConversationMemory) (current_query : str)
    (max_length : option Z) : list str :=
  collect_context (effective_max_length self max_length) [] 0%Z
    (_get_relevant_context self current_query).

(** The total length of a list of snippets. *)
Definition snippets_length (parts : list str) : nat :=
  sum_list (map length parts).

Definition context_header (n : nat) : str :=
  u "📝 **对话历史 (最近" ++ str_of_nat n ++ u "轮):**" ++ [newline; newline].

Definition get_context_for_query (self : ConversationMemory)
    (current_query : str) (max_length : option Z) : str :=
  match conversation_history self with
  | [] => []
  | _ :: _ =>
      let context_parts := context_parts_for self current_query max_length in
      match context_parts with
      | [] => []
      | _ :: _ =>
          context_header (length context_parts)
          ++ join [newline; newline] context_parts
      end
  end.

Definition clear_history (self : ConversationMemory) (now : datetime)
    (files : Files) : ConversationMemory * Files :=
  ({| max_history := max_history self;
      max_context_length := max_context_length self;
      memory_file := memory_file self;
      conversation_history := [];
      current_session_id := _generate_session_id now |},
   delete (memory_file self) files).

(** One entry of the list handed to [json.dumps]: a dictionary with
    these five keys. *)
Record ExportEntry := {
  entry_timestamp : str;
  entry_user : str;
  entry_assistant : str;
  entry_session : str;
  entry_keywords : list str
}.

Inductive exception :=
  | ValueError (message : str).

Inductive result (A : Type) :=
  | Return (value : A)
  | Raise (e : exception).

Arguments Return {A} value.
Arguments Raise {A} e.

Section export.

(** [json.dumps(..., ensure_ascii=False, indent=2)], the serializer of
    the standard library. *)
Variable json_dumps : list ExportEntry -> str.

Definition _export_as_json (self : ConversationMemory) : str :=
  let export_data :=
    map (fun turn =>
           {| entry_timestamp := isoformat (timestamp turn);
              entry_user := user_query turn;
              entry_assistant := ai_response turn;
              entry_session := session_id turn;
              entry_keywords := keywords turn |})
        (conversation_history self) in
  json_dumps export_data.

(** The lines appended for the [i]-th turn. *)
Definition text_lines_of_turn (i : nat) (turn : ConversationTurn) : list str :=
  [[newline] ++ u "[" ++ str_of_nat i ++ u "] " ++ strftime_full (timestamp turn);
   u "用户: " ++ user_query turn;
   u "助手: " ++ ai_response turn]
  ++ (match keywords turn with
      | [] => []
      | _ :: _ => [u "关键词: " ++ join (u ", ") (keywords turn)]
      end)
  ++ [replicate 40 45%N].

Definition _export_as_text (self : ConversationMemory) : str :=
  let lines :=
    [replicate 60 61%N; u "对话历史导出"; replicate 60 61%N]
    ++ concat (imap (fun i turn => text_lines_of_turn (S i) turn)
                    (conversation_history self)) in
  join [newline] lines.

Definition export_conversation (self : ConversationMemory) (format : str)
  : result str :=
  if decide (format = u "json") then Return (_export_as_json self)
  else if decide (format = u "txt") then Return (_export_as_text self)
  else Raise (ValueError (u "Unsupported export format")).

End export.

(** The [topic_counts] dictionary of [get_conversation_stats], with its
    keys in insertion order: counting a keyword increments its entry
    where it is, or adds an entry at the end. *)
Fixpoint count_topic (keyword : str) (topic_counts : list (str * nat))
  : list (str * nat) :=
  match topic_counts with
  | [] => [(keyword, 1)]
  | (topic, count) :: topic_counts' =>
      if decide (topic = keyword) then (topic, S count) :: topic_counts'
      else (topic, count) :: count_topic keyword topic_counts'
  end.

Definition count_topics (all_keywords : list str) : list (str * nat) :=
  foldl (fun topic_counts keyword => count_topic keyword topic_counts)
        [] all_keywords.

(** [sorted(topic_counts.items(), key=lambda x: x[1], reverse=True)[:5]] *)
Definition most_discussed (topic_counts : list (str * nat))
  : list (str * nat) :=
  slice_to 5
    (map snd (sort_desc (map (fun item => (Z.of_nat item.2, item))
                             topic_counts))).

Record ConversationStats := {
  total_conversations : nat;
  current_session_length : nat;
  most_discussed_topics : list (str * nat);
  avg_response_length : Q
}.

Section stats.

(** [round(x, 1)] of the standard library. *)
Variable round1 : Q -> Q.

Definition get_conversation_stats (self : ConversationMemory)
  : ConversationStats :=
  match conversation_history self with
  | [] =>
      {| total_conversations := 0;
         current_session_length := 0;
         most_discussed_topics := [];
         avg_response_length := 0%Q |}
  | _ :: _ =>
      let total_conversations := length (conversation_history self) in
      let current_session_conversations :=
        length (filter (fun turn => session_id turn = current_session_id self)
                       (conversation_history self)) in
      let all_keywords := concat (map keywords (conversation_history self)) in
      let topic_counts := count_topics all_keywords in
      let avg_response_length :=
        (inject_Z (Z.of_nat (sum_list (map (fun turn => length (ai_response turn))
                                          (conversation_history self))))
         / inject_Z (Z.of_nat (length (conversation_history self))))%Q in
      {| total_conversations := total_conversations;
         current_session_length := current_session_conversations;
         most_discussed_topics := most_discussed topic_counts;
         avg_response_length := round1 avg_response_length |}
  end.

End stats.

(** The module-level [_global_memory]: [None] until the first call of
    [get_conversation_memory].  The instance is built with the default
    arguments of the constructor. *)
Definition default_memory (now : datetime) (files : Files)
  : ConversationMemory :=
  __init__ 10 2000 (u "conversation_history.json") now files.

Definition get_conversation_memory (_global_memory : option ConversationMemory)
    (now : datetime) (files : Files)
  : ConversationMemory * option ConversationMemory :=
  match _global_memory with
  | None =>
      let memory := default_memory now files in (memory, Some memory)
  | Some memory => (memory, Some memory)
  end.

(** [reset_conversation_memory]: the history of the current instance, if
    there is one, is cleared (at the clock reading [now]); then a new
    instance is built (at the clock reading [now']). *)
Definition reset_conversation_memory
    (_global_memory : option ConversationMemory) (now now' : datetime)
    (files : Files) : option ConversationMemory * Files :=
  let files :=
    match _global_memory with
    | Some memory => (clear_history memory now files).2
    | None => files
    end in
  (Some (default_memory now' files), files).

End conversation_memory.

(** ** retriever_enhanced.py: the retrieval methods *)

Module enhanced_retrieval.
Import web_search_integration.

(** A retriever of the vector store, seen through [invoke(query)]. *)
Definition Retriever : Type := str -> list Document.

Record EnhancedRetriever := {
  vector_retriever : Retriever;
  mmr_retriever : Retriever;
  ensemble_retriever : Retriever;
  compression_retriever : Retriever
}.

(** [_setup_retrievers], from the two retrievers that the vector store
    gives: the ensemble and the compression retrievers are the vector
    retriever. *)
Definition _setup_retrievers (vector mmr : Retriever) : EnhancedRetriever :=
  {| vector_retriever := vector;
     mmr_retriever := mmr;
     ensemble_retriever := vector;
     compression_retriever := vector |}.

(** The body of the loop over the MMR documents. *)
Definition add_mmr (results : list Document) (doc : Document)
  : list Document :=
  if bool_decide (doc ∉ results) && bool_decide (length results < 6)
  then results ++ [doc]
  else results.

(** The deduplication loop, with its [break] at five documents. *)
Fixpoint first_unique (unique_docs : list Document) (seen_content : gset str)
    (results : list Document) : list Document :=
  match results with
  | [] => unique_docs
  | doc :: results' =>
      let content := slice_to 100 (page_content doc) in
      if decide (content ∈ seen_content)
      then first_unique unique_docs seen_content results'
      else
        let unique_docs := unique_docs ++ [doc] in
        if bool_decide (5 <= length unique_docs) then unique_docs
        else first_unique unique_docs ({[content]} ∪ seen_content) results'
  end.

Definition _enhanced_retrieval (self : EnhancedRetriever) (query : str)
  : list Document :=
  let vector_docs := vector_retriever self query in
  let results := vector_docs in
  let results :=
    if bool_decide (length vector_docs < 3)
    then foldl add_mmr results (mmr_retriever self query)
    else results in
  first_unique [] ∅ results.

Inductive exception :=
  | ValueError (message : str).

Inductive result (A : Type) :=
  | Return (value : A)
  | Raise (e : exception).

Arguments Return {A} value.
Arguments Raise {A} e.

Definition get_relevant_documents (self : EnhancedRetriever) (query : str)
    (method : str) : result (list Document) :=
  if decide (method = u "vector") then Return (vector_retriever self query)
  else if decide (method = u "mmr") then Return (mmr_retriever self query)
  else if decide (method = u "ensemble")
  then Return (ensemble_retriever self query)
  else if decide (method = u "compression")
  then Return (compression_retriever self query)
  else if decide (method = u "enhanced")
  then Return (_enhanced_retrieval self query)
  else Raise (ValueError (u "未知的检索方法: " ++ method)).

(** The retriever as the local retriever of the hybrid system, which
    calls [get_relevant_documents(query, method="enhanced")]. *)
Definition as_local_retriever (self : EnhancedRetriever) : LocalRetriever :=
  fun query =>
    match get_relevant_documents self query (u "enhanced") with
    | Return docs => Some docs
    | Raise _ => None
    end.

End enhanced_retrieval.

(** ** web_search_integration.py: the DuckDuckGo engine *)

Module duckduckgo.
Import web_search_integration.

(** The JSON document of the instant-answer service, with the keys that
    the engine reads; a key is [None] when the document lacks it. *)
Record Answer := {
  Abstract : option str;
  Heading : option str;
  AbstractURL : option str;
  RelatedTopics : option (list (gmap str str))
}.

(** [l[:n]]: a negative [n] counts from the end. *)
Definition slice_upto {A} (n : Z) (l : list A) : list A :=
  if (0 <=? n)%Z then take (Z.to_nat n) l
  else take (length l - Z.to_nat (- n)) l.

(** [s.split(sep)[-1]]: what follows the last separator. *)
Fixpoint last_segment (sep : N) (segment : str) (s : str) : str :=
  match s with
  | [] => segment
  | c :: s' =>
      if (c =? sep)%N then last_segment sep [] s'
      else last_segment sep (segment ++ [c]) s'
  end.

(** [s.replace(a, b)] for single characters. *)
Definition replace_char (a b : N) (s : str) : str :=
  map (fun c => if (c =? a)%N then b else c) s.

Definition abstract_result (data : Answer) : gmap str str :=
  <[u "title" := default [] (Heading data)]>
  (<[u "content" := default [] (Abstract data)]>
  (<[u "url" := default [] (AbstractURL data)]>
  (<[u "source" := u "DuckDuckGo Abstract"]> ∅))).

Definition related_result (topic : gmap str str) : gmap str str :=
  <[u "title" :=
      replace_char 95 32 (last_segment 47 [] (dict_get topic (u "FirstURL") []))]>
  (<[u "content" := dict_get topic (u "Text") []]>
  (<[u "url" := dict_get topic (u "FirstURL") []]>
  (<[u "source" := u "DuckDuckGo Related"]> ∅))).

Definition add_related (results : list (gmap str str)) (topic : gmap str str)
  : list (gmap str str) :=
  if decide (is_Some (topic !! u "Text")) then results ++ [related_result topic]
  else results.

(** [DuckDuckGoSearchEngine.search], from the answer of the service;
    [None] stands for a request that fails or an answer that is not a
    JSON document, which the engine catches. *)
Definition search (response : option Answer) (max_results : Z)
  : list (gmap str str) :=
  match response with
  | None => []
  | Some data =>
      let results :=
        match Abstract data with
        | Some (_ :: _) => [abstract_result data]
        | _ => []
        end in
      let results :=
        foldl add_related results
              (slice_upto max_results (default [] (RelatedTopics data))) in
      slice_upto max_results results
  end.

(** The engine as the hybrid system calls it. *)
Definition engine (service : str -> option Answer) : Engine :=
  fun query max_results => Some (search (service query) max_results).

End duckduckgo.

(** ** app_hybrid.py: the analysis of a hybrid retrieval *)

Module app_hybrid.

Record HybridQuality := {
  quality_score : Q;
  num_local_docs : nat;
  num_web_docs : nat;
  (* the report on an empty list has no average *)
  avg_content_length : option Q;
  recommendations : list str
}.

Definition local_docs_of (docs : list Document) : list Document :=
  filter (fun doc => source_type doc = Some (u "local")) docs.

Definition web_docs_of (docs : list Document) : list Document :=
  filter (fun doc => source_type doc = Some (u "web")) docs.

Definition Qltb (a b : Q) : bool :=
  match (a ?= b)%Q with Lt => true | _ => false end.

Definition _analyze_hybrid_retrieval (docs : list Document)
    (use_local use_web : bool) : HybridQuality :=
  match docs with
  | [] =>
      {| quality_score := 0%Q;
         num_local_docs := 0;
         num_web_docs := 0;
         avg_content_length := None;
         recommendations := [u "未检索到文档，请检查查询参数"] |}
  | _ :: _ =>
      let local_docs := local_docs_of docs in
      let web_docs := web_docs_of docs in
      let content_lengths := map (fun doc => length (page_content doc)) docs in
      let avg_length :=
        (inject_Z (Z.of_nat (sum_list content_lengths))
         / inject_Z (Z.of_nat (length content_lengths)))%Q in
      let base_score := Qmin 50 (inject_Z (Z.of_nat (length docs * 10))) in
      let length_score := Qmin 30 (avg_length / 50)%Q in
      let diversity_score :=
        Qmin 20 (inject_Z (Z.of_nat (length local_docs * 5
                                     + length web_docs * 5))) in
      let quality_score := (base_score + length_score + diversity_score)%Q in
      let recommendations :=
        (if bool_decide (length local_docs = 0) && use_local
         then [u "本地知识库未找到相关内容，考虑添加更多学习资料"] else [])
        ++ (if bool_decide (length web_docs = 0) && use_web
            then [u "网络搜索未返回结果，检查网络连接或尝试不同关键词"]
            else [])
        ++ (if Qltb quality_score 60
            then [u "检索质量偏低，建议优化查询词或调整搜索策略"] else []) in
      {| quality_score := Qmin 100 quality_score;
         num_local_docs := length local_docs;
         num_web_docs := length web_docs;
         avg_content_length := Some avg_length;
         recommendations := recommendations |}
  end.

(** [_get_docs_breakdown]: the numbers of documents whose [source_type]
    is "local" and "web". *)
Definition count_source (breakdown : nat * nat) (doc : Document) : nat * nat :=
  let source_type := dict_get (metadata doc) (u "source_type") (u "unknown") in
  if decide (source_type = u "local") then (S breakdown.1, breakdown.2)
  else if decide (source_type = u "web") then (breakdown.1, S breakdown.2)
  else breakdown.

Definition _get_docs_breakdown (docs : list Document) : nat * nat :=
  foldl count_source (0, 0) docs.

End app_hybrid.

(** ** Source tags *)

Module tags.

Definition is_local (doc : Document) : Prop :=
  source_type doc = Some (u "local").

Definition is_web (doc : Document) : Prop :=
  source_type doc = Some (u "web").

End tags.

(** ** Sample inputs *)

Module samples.
Import web_search_integration.

Definition untagged_passage (content : str) : Document :=
  {| page_content := content; metadata := ∅ |}.

Definition local_passage (content : str) : Document :=
  {| page_content := content;
     metadata := {[ u "source_type" := u "local" ]} |}.

Definition web_passage (content : str) : Document :=
  {| page_content := content;
     metadata := {[ u "source_type" := u "web" ]} |}.

Definition five_passages : list Document :=
  replicate 5 (untagged_passage (replicate 200 97%N)).

(** Nine local passages with nine different contents, and a web passage
    with the content of the ninth. *)
Definition nine_local_one_web : list Document :=
  map (fun c => local_passage [c]) [48; 49; 50; 51; 52; 53; 54; 55; 56]%N
  ++ [web_passage [56%N]].

(** A raw engine result with a content of [n] characters. *)
Definition raw_result (n : nat) : gmap str str :=
  {[ u "title" := u "Present perfect";
     u "content" := replicate n 97%N;
     u "url" := u "https://en.wikipedia.org/wiki/Present_perfect";
     u "source" := u "Wikipedia" ]}.

(** A system whose only engine answers every query with [results]. *)
Definition one_engine (results : list (gmap str str)) : HybridRAGSystem :=
  {| local_retriever := None;
     enable_web_search := true;
     search_engines := [fun _ _ => Some results] |}.

Import conversation_memory.

Definition clock (h m : N) : datetime :=
  {| year := 2025; month := 3; day := 14;
     hour := h; minute := m; second := 0; microsecond := 0 |}.

Definition say (m : N) (q a : str) : Call :=
  {| call_now := clock 9 m;
     call_user_query := q;
     call_ai_response := a;
     call_metadata := None;
     call_retrieved_docs := None |}.

(** A fresh memory (no history file) with the given history bound. *)
Definition fresh (max_history : Z) : ConversationMemory * Files :=
  (__init__ max_history 2000 (u "conversation_history.json") (clock 9 0) ∅, ∅).

(** Two calls about the same topic, one minute apart. *)
Definition first_call : Call :=
  say 1 (u "现在完成时的用法是什么？") (u "表示从过去持续到现在的动作").

Definition second_call : Call :=
  say 2 (u "现在完成时有哪些标志词？") (u "for, since, already").

Definition session : str := _generate_session_id (clock 9 0).

Definition older_turn : ConversationTurn := turn_of session first_call.

Definition newer_turn : ConversationTurn := turn_of session second_call.

Definition two_turns : ConversationMemory :=
  (add_calls (fresh 10) [first_call; second_call]).1.

Definition one_turn : ConversationMemory :=
  (add_calls (fresh 10) [first_call]).1.

Definition examples_query : str := u "现在完成时能给一些例子吗？".

(** Eleven calls, numbered by their minute. *)
Definition eleven_calls : list Call :=
  map (fun m => say m (u "tense " ++ u (pretty m)) (u "ok"))
      [1; 2; 3; 4; 5; 6; 7; 8; 9; 10; 11]%N.

End samples.

(** ** More sample inputs *)

Module more_samples.
Import web_search_integration enhanced_retrieval samples.

(** A vector store whose similarity search finds two passages and whose
    MMR search finds these two and a third one. *)
Definition small_store : EnhancedRetriever :=
  _setup_retrievers
    (fun _ => [untagged_passage (u "have + past participle");
               untagged_passage (u "for and since")])
    (fun _ => [untagged_passage (u "for and since");
               untagged_passage (u "have + past participle");
               untagged_passage (u "already, yet, just")]).

(** The hybrid system over [small_store], with one engine that finds
    nothing. *)
Definition small_system : HybridRAGSystem :=
  {| local_retriever := Some (as_local_retriever small_store);
     enable_web_search := true;
     search_engines := [fun _ _ => Some []] |}.

(** An answer of the instant-answer service with an abstract and three
    related topics, the second of which is a group without text. *)
Definition sample_answer : duckduckgo.Answer :=
  {| duckduckgo.Abstract := Some (u "The present perfect is a tense.");
     duckduckgo.Heading := Some (u "Present perfect");
     duckduckgo.AbstractURL :=
       Some (u "https://en.wikipedia.org/wiki/Present_perfect");
     duckduckgo.RelatedTopics :=
       Some [ {[ u "Text" := u "Past tense";
                 u "FirstURL" := u "https://duckduckgo.com/Past_tense" ]};
              {[ u "Name" := u "Grammar" ]};
              {[ u "Text" := u "Perfect aspect";
                 u "FirstURL" := u "https://duckduckgo.com/Perfect_(grammar)" ]} ] |}.

End more_samples.

(** * Properties *)

Example u_present_perfect :
  u "现在完成时" = [29616; 22312; 23436; 25104; 26102]%N.
Proof. reflexivity. Qed.

Example u_header :
  u "📝 **对话历史 (最近"
  = [128221; 32; 42; 42; 23545; 35805; 21382; 21490; 32; 40; 26368; 36817]%N.
Proof. reflexivity. Qed.

Example str_of_nat_12 : str_of_nat 12 = u "12".
Proof. reflexivity. Qed.

Example slice_last_examples :
  slice_last 2 [1; 2; 3] = [2; 3] /\ slice_last 5 [1; 2; 3] = [1; 2; 3]
  /\ slice_last 0 [1; 2; 3] = [1; 2; 3] /\ slice_last (-1) [1; 2; 3] = [2; 3].
Proof. repeat split. Qed.

(** ** Retrieval quality *)

Module quality.
Import retriever_enhanced samples.

Lemma sum_list_lengths (n : nat) (docs : list Document) :
  Forall (fun doc => length (page_content doc) = n) docs ->
  sum_list (map (fun doc => length (page_content doc)) docs) = n * length docs.
Proof.
  induction 1 as [|doc docs Hdoc _ IH]; simpl; [lia|].
  rewrite Hdoc, IH. lia.
Qed.

Lemma mean_nonneg (ns : list nat) : (0 <= mean ns)%Q.
Proof.
  unfold mean, Qdiv. apply Qmult_le_0_compat.
  - change 0%Q with (inject_Z 0). rewrite <- Zle_Qle. lia.
  - apply Qinv_le_0_compat.
    change 0%Q with (inject_Z 0). rewrite <- Zle_Qle. lia.
Qed.

(** On a non-empty list the score is at least 20: the count term alone
    gives it. *)
Lemma quality_score_at_least_20 (q : str) (docs : list Document) :
  docs <> [] -> (20 <= quality_score (analyze_retrieval_quality q docs))%Q.
Proof.
  destruct docs as [|doc docs]; [done|]. intros _.
  cbn [analyze_retrieval_quality quality_score].
  apply Q.min_glb; [done|].
  set (m := mean _).
  assert (Hm : (0 <= m / 20)%Q).
  { unfold Qdiv. apply Qmult_le_0_compat; [apply mean_nonneg | done]. }
  apply Qle_trans with (inject_Z (Z.of_nat (length (doc :: docs) * 20)) + 0)%Q.
  - rewrite Qplus_0_r. change 20%Q with (inject_Z 20). rewrite <- Zle_Qle.
    simpl length. lia.
  - apply Qplus_le_r. exact Hm.
Qed.

(** C1, as stated, fails: five passages of 200 characters do not score
    80. *)
Lemma five_passages_do_not_score_80 :
  length five_passages = 5
  /\ Forall (fun doc => length (page_content doc) = 200) five_passages
  /\ ~ (quality_score
          (analyze_retrieval_quality (u "present perfect tense") five_passages)
        == 80)%Q.
Proof.
  split; [reflexivity|]. split.
  - repeat constructor.
  - vm_compute. discriminate.
Qed.

(** C1 (amended): for five passages of 200 characters each the report
    has [num_results = 5], a mean length of 200, the score
    [min(100, 5*20 + 200/20) = 100] and no recommendation. *)
Theorem analyze_five_passages_of_200 (q : str) (docs : list Document) :
  length docs = 5 ->
  Forall (fun doc => length (page_content doc) = 200) docs ->
  let report := analyze_retrieval_quality q docs in
  num_results report = 5
  /\ (avg_content_length report == 200)%Q
  /\ (quality_score report == Qmin 100 (5 * 20 + 200 / 20))%Q
  /\ (quality_score report == 100)%Q
  /\ recommendations report = [].
Proof.
  intros Hlen Hall.
  pose proof (sum_list_lengths 200 docs Hall) as Hsum. rewrite Hlen in Hsum.
  destruct docs as [|doc docs]; [done|].
  cbn [analyze_retrieval_quality num_results avg_content_length
       quality_score recommendations].
  unfold mean. rewrite length_map, Hsum, Hlen.
  vm_compute. repeat split; congruence.
Qed.

Lemma analyze_five_passages_of_200_witness :
  let report :=
    analyze_retrieval_quality (u "present perfect tense") five_passages in
  num_results report = 5
  /\ (avg_content_length report == 200)%Q
  /\ (quality_score report == Qmin 100 (5 * 20 + 200 / 20))%Q
  /\ (quality_score report == 100)%Q
  /\ recommendations report = [].
Proof.
  apply (analyze_five_passages_of_200 (u "present perfect tense") five_passages).
  - reflexivity.
  - repeat constructor.
Defined.

(** C8: on an empty list the score is 0 and the only recommendation is
    the one about no document being retrieved; on a non-empty list the
    score is not 0. *)
Theorem quality_score_zero_only_when_empty (q : str) (docs : list Document) :
  docs <> [] ->
  quality_score (analyze_retrieval_quality q []) = 0%Q
  /\ recommendations (analyze_retrieval_quality q [])
     = [u "未检索到文档，请检查查询或知识库"]
  /\ ~ (quality_score (analyze_retrieval_quality q docs) == 0)%Q.
Proof.
  intros Hne. split; [reflexivity|]. split; [reflexivity|].
  intros Hz. pose proof (quality_score_at_least_20 q docs Hne) as H20.
  rewrite Hz in H20. revert H20. vm_compute. congruence.
Qed.

Lemma quality_score_zero_only_when_empty_witness :
  quality_score (analyze_retrieval_quality (u "tense") []) = 0%Q
  /\ recommendations (analyze_retrieval_quality (u "tense") [])
     = [u "未检索到文档，请检查查询或知识库"]
  /\ ~ (quality_score
          (analyze_retrieval_quality (u "tense") [untagged_passage (u "a")]) == 0)%Q.
Proof.
  apply (quality_score_zero_only_when_empty (u "tense") [untagged_passage (u "a")]).
  discriminate.
Defined.

End quality.

(** ** Web adapter and deduplication *)

Module hybrid.
Import web_search_integration samples.

Lemma foldl_add_unique (docs acc : list Document) (seen : gset str) :
  foldl add_unique (acc, seen) docs
  = (acc ++ keep_first seen docs, content_keys docs ∪ seen).
Proof.
  revert acc seen.
  induction docs as [|doc docs IH]; intros acc seen; simpl.
  - rewrite app_nil_r. f_equal. unfold content_keys. set_solver.
  - unfold add_unique at 2. simpl. destruct (decide (content_key doc ∈ seen)).
    + rewrite IH. f_equal. unfold content_keys. set_solver.
    + rewrite IH, <- app_assoc. f_equal. unfold content_keys. set_solver.
Qed.

Lemma keep_first_app (l1 l2 : list Document) (seen : gset str) :
  keep_first seen (l1 ++ l2)
  = keep_first seen l1 ++ keep_first (content_keys l1 ∪ seen) l2.
Proof.
  revert seen. induction l1 as [|doc l1 IH]; intros seen; simpl.
  - f_equal. unfold content_keys. set_solver.
  - destruct (decide (content_key doc ∈ seen)); rewrite IH; simpl.
    + do 2 f_equal. unfold content_keys. set_solver.
    + do 3 f_equal. unfold content_keys. set_solver.
Qed.

Lemma unique_docs_keep_first (docs : list Document) :
  unique_docs docs
  = keep_first ∅ (local_of docs)
    ++ keep_first (content_keys (local_of docs)) (web_of docs).
Proof.
  unfold unique_docs. rewrite !foldl_add_unique. simpl.
  do 2 f_equal. set_solver.
Qed.

Lemma keep_first_elem (seen : gset str) (docs : list Document) (doc : Document) :
  doc ∈ keep_first seen docs -> doc ∈ docs /\ content_key doc ∉ seen.
Proof.
  revert seen. induction docs as [|d docs IH]; intros seen; simpl.
  - intros H. by apply elem_of_nil in H.
  - destruct (decide (content_key d ∈ seen)).
    + intros H. destruct (IH _ H). split; [by right | done].
    + intros [->|H]%elem_of_cons; [split; [by left | done]|].
      destruct (IH _ H) as [? Hk]. split; [by right | set_solver].
Qed.

Lemma keep_first_length (seen : gset str) (docs : list Document) :
  length (keep_first seen docs) <= length docs.
Proof.
  revert seen. induction docs as [|d docs IH]; intros seen; simpl; [lia|].
  destruct (decide (content_key d ∈ seen)); simpl.
  - specialize (IH seen). lia.
  - specialize (IH ({[content_key d]} ∪ seen)). lia.
Qed.

Lemma filter_none {A} (P : A -> Prop) `{!forall x, Decision (P x)} (l : list A) :
  (forall x, x ∈ l -> ~ P x) -> filter P l = [].
Proof.
  induction l as [|x l IH]; intros Hl; [done|].
  rewrite filter_cons, decide_False by (apply Hl; left).
  apply IH. intros y Hy. apply Hl. by right.
Qed.

Lemma filter_take_unit {A} (P : A -> Prop) `{!forall x, Decision (P x)}
    (l : list A) (x : A) (n : nat) :
  filter P l = [x] -> filter P (take n l) = [x] \/ filter P (take n l) = [].
Proof.
  intros Hf. rewrite <- (take_drop n l), filter_app in Hf.
  apply app_eq_unit in Hf as [[Hf _]|[Hf _]]; auto.
Qed.

Lemma filter_take_unit_lt {A} (P : A -> Prop) `{!forall x, Decision (P x)}
    (l : list A) (x : A) (n j : nat) :
  filter P l = [x] -> l !! j = Some x -> j < n -> filter P (take n l) = [x].
Proof.
  intros Hf Hj Hlt.
  destruct (filter_take_unit P l x n Hf) as [|Hnil]; [done|].
  assert (HP : P x).
  { assert (Hx : x ∈ filter P l) by (rewrite Hf; left).
    apply list_elem_of_filter in Hx. tauto. }
  exfalso. apply (filter_nil_not_elem_of P _ x Hnil HP).
  apply list_elem_of_lookup. exists j. by rewrite lookup_take_lt.
Qed.

Lemma filter_key_keep_first_seen (k : str) (seen : gset str)
    (docs : list Document) :
  k ∈ seen -> filter (has_key k) (keep_first seen docs) = [].
Proof.
  intros Hk. apply filter_none. intros d Hd Hkd. unfold has_key in Hkd.
  subst k. apply keep_first_elem in Hd as [_ Hd]. done.
Qed.

(** The first document carrying a key survives, its later copies do not,
    and nothing moves it further back than it was. *)
Lemma keep_first_first_copy (k : str) (seen : gset str)
    (l1 l2 : list Document) (d0 : Document) :
  k ∉ seen -> (forall d, d ∈ l1 -> content_key d <> k) -> content_key d0 = k ->
  filter (has_key k) (keep_first seen (l1 ++ d0 :: l2)) = [d0]
  /\ exists j, j <= length l1 /\ keep_first seen (l1 ++ d0 :: l2) !! j = Some d0.
Proof.
  intros Hseen Hl1 Hd0.
  assert (Hk : content_key d0 ∉ content_keys l1 ∪ seen).
  { rewrite Hd0. unfold content_keys.
    intros [Hin|Hin]%elem_of_union; [|done].
    apply elem_of_list_to_set, list_elem_of_fmap in Hin as (d & Hkd & Hd).
    by apply (Hl1 d). }
  rewrite keep_first_app. simpl. rewrite decide_False by done. split.
  - rewrite filter_app, filter_cons, decide_True by done.
    rewrite filter_none; simpl.
    + f_equal. apply filter_key_keep_first_seen. rewrite Hd0. set_solver.
    + intros d Hd. apply keep_first_elem in Hd as [Hd _]. by apply Hl1.
  - exists (length (keep_first seen l1)). split; [apply keep_first_length|].
    apply list_lookup_middle. done.
Qed.

(** C3, as stated, fails: a passage that is in both lists can be absent
    from the merged output altogether, when eight other local passages
    come before it. *)
Lemma shared_passage_cut_by_cap :
  local_passage [56%N] ∈ local_of nine_local_one_web
  /\ web_passage [56%N] ∈ web_of nine_local_one_web
  /\ content_key (local_passage [56%N]) = content_key (web_passage [56%N])
  /\ filter (has_key [56%N])
        (_deduplicate_and_rank nine_local_one_web) = [].
Proof.
  split; [|split; [|split]].
  - apply (bool_decide_unpack _). by vm_compute.
  - apply (bool_decide_unpack _). by vm_compute.
  - reflexivity.
  - by vm_compute.
Qed.

(** C3 (amended): when a passage of the local list and a passage of the
    web list have the same first 100 characters, the merged output holds
    at most one passage with that prefix: the first local passage that
    has it, or none when the cut at 8 removed it; it holds exactly that
    one when fewer than 8 local passages come before it; the web passage
    is never in the output. *)
Theorem local_copy_wins (docs : list Document) (p q : Document) :
  p ∈ local_of docs -> q ∈ web_of docs -> content_key p = content_key q ->
  exists (i : nat) (first : Document),
    list_find (has_key (content_key p)) (local_of docs) = Some (i, first)
    /\ source_type first = Some (u "local")
    /\ (q ∉ _deduplicate_and_rank docs)
    /\ (filter (has_key (content_key p)) (_deduplicate_and_rank docs) = [first]
        \/ filter (has_key (content_key p)) (_deduplicate_and_rank docs) = [])
    /\ (i < 8 -> filter (has_key (content_key p)) (_deduplicate_and_rank docs) = [first]).
Proof.
  intros Hp Hq Hkey.
  destruct (list_find_elem_of (has_key (content_key p)) (local_of docs) p Hp eq_refl)
    as [[i first] Hfind].
  exists i, first. split; [done|].
  apply list_find_Some in Hfind as (Hi & Hfirst & Hbefore).
  assert (Hlocal : source_type first = Some (u "local")).
  { apply list_elem_of_lookup_2 in Hi.
    unfold local_of in Hi. apply list_elem_of_filter in Hi. tauto. }
  split; [done|].
  pose proof (take_drop_middle _ _ _ Hi) as Hsplit.
  assert (Hall : filter (has_key (content_key p)) (unique_docs docs) = [first]
                 /\ exists j, j <= i /\ unique_docs docs !! j = Some first).
  { rewrite unique_docs_keep_first, filter_app.
    destruct (keep_first_first_copy (content_key p) ∅
                (take i (local_of docs)) (drop (S i) (local_of docs)) first)
      as (Hf & j & Hj & Hlook).
    - set_solver.
    - intros d Hd. apply list_elem_of_lookup in Hd as [n Hn].
      pose proof (lookup_lt_Some _ _ _ Hn) as Hlt.
      rewrite length_take in Hlt.
      rewrite lookup_take_lt in Hn by lia.
      apply (Hbefore n d Hn). lia.
    - exact Hfirst.
    - rewrite Hsplit in Hf, Hlook. split.
      + rewrite Hf.
        rewrite (filter_key_keep_first_seen (content_key p)); [done|].
        unfold content_keys. apply elem_of_list_to_set, list_elem_of_fmap.
        by exists p.
      + exists j. split.
        * rewrite length_take in Hj. lia.
        * apply lookup_app_l_Some. exact Hlook. }
  destruct Hall as (Hf & j & Hj & Hlook).
  pose proof (filter_take_unit (has_key (content_key p)) _ first 8 Hf) as Hcase.
  split; [|split; [exact Hcase|]].
  - intros Hin.
    assert (Hqc : q ∈ filter (has_key (content_key p)) (_deduplicate_and_rank docs)).
    { apply list_elem_of_filter. split; [by symmetry | done]. }
    unfold _deduplicate_and_rank, slice_to in Hqc.
    destruct Hcase as [Hc|Hc]; rewrite Hc in Hqc.
    + apply list_elem_of_singleton in Hqc as ->.
      unfold web_of in Hq. apply list_elem_of_filter in Hq as [Hq _].
      rewrite Hlocal in Hq. vm_compute in Hq. discriminate.
    + by apply elem_of_nil in Hqc.
  - intros Hlt. apply (filter_take_unit_lt _ _ _ _ j Hf Hlook). lia.
Qed.

Lemma local_copy_wins_witness :
  exists (i : nat) (first : Document),
    list_find (has_key [50%N])
      (local_of [local_passage [50%N]; web_passage [50%N]]) = Some (i, first)
    /\ source_type first = Some (u "local")
    /\ (web_passage [50%N]
        ∉ _deduplicate_and_rank [local_passage [50%N]; web_passage [50%N]])
    /\ (filter (has_key [50%N])
          (_deduplicate_and_rank [local_passage [50%N]; web_passage [50%N]])
        = [first]
        \/ filter (has_key [50%N])
             (_deduplicate_and_rank [local_passage [50%N]; web_passage [50%N]])
           = [])
    /\ (i < 8 ->
        filter (has_key [50%N])
          (_deduplicate_and_rank [local_passage [50%N]; web_passage [50%N]])
        = [first]).
Proof.
  apply (local_copy_wins [local_passage [50%N]; web_passage [50%N]]
           (local_passage [50%N]) (web_passage [50%N])).
  - apply (bool_decide_unpack _). vm_compute. exact I.
  - apply (bool_decide_unpack _). vm_compute. exact I.
  - reflexivity.
Defined.

Lemma foldl_append_result (q : str) (acc : list Document)
    (results : list (gmap str str)) :
  foldl (append_result q) acc results = acc ++ omap (result_document q) results.
Proof.
  revert acc. induction results as [|r results IH]; intros acc; simpl.
  - by rewrite app_nil_r.
  - rewrite IH. unfold append_result.
    destruct (result_document q r); [by rewrite <- app_assoc | done].
Qed.

Lemma foldl_search_engine (q : str) (m : Z) (acc : list Document)
    (engines : list Engine) :
  foldl (search_engine q m) acc engines
  = acc ++ concat (map (fun engine : Engine =>
                          omap (result_document q) (default [] (engine q m)))
                       engines).
Proof.
  revert acc. induction engines as [|e engines IH]; intros acc; simpl.
  - by rewrite app_nil_r.
  - rewrite IH. unfold search_engine. destruct (e q m); simpl.
    + by rewrite foldl_append_result, <- app_assoc.
    + done.
Qed.

(** C6, as stated, fails: a result whose content has exactly 50
    characters is discarded. *)
Lemma result_of_50_characters_discarded :
  length (dict_get (raw_result 50) (u "content") []) = 50
  /\ _web_search (one_engine [raw_result 50]) (u "present perfect") 2 = [].
Proof. split; by vm_compute. Qed.

Example result_of_51_characters_kept :
  map page_content
      (_web_search (one_engine [raw_result 51]) (u "present perfect") 2)
  = [replicate 51 97%N].
Proof. by vm_compute. Qed.

(** C6 (amended): the web search returns, engine after engine and
    result after result, the documents of exactly those raw results
    whose content has more than 50 characters; a result with 50
    characters or fewer is discarded, an engine that fails contributes
    nothing. *)
Theorem web_search_keeps_longer_than_50 (self : HybridRAGSystem) (q : str)
    (m : Z) (result : gmap str str) :
  let enhanced_query := _enhance_query q in
  let content := dict_get result (u "content") [] in
  _web_search self q m
  = concat (map (fun engine : Engine =>
                   omap (result_document enhanced_query)
                        (default [] (engine enhanced_query m)))
                (search_engines self))
  /\ (is_Some (result_document enhanced_query result) <-> 50 < length content)
  /\ page_content <$> result_document enhanced_query result
     = (if decide (50 < length content) then Some content else None).
Proof.
  intros enhanced_query content. split; [|split].
  - unfold _web_search. by rewrite foldl_search_engine.
  - unfold result_document. fold content.
    destruct (decide (50 < length content)) as [Hlt|Hge].
    + rewrite !bool_decide_eq_true_2; [simpl; split; eauto|done|].
      intros ->. simpl in Hlt. lia.
    + rewrite (bool_decide_eq_false_2 (50 < _)), andb_false_r by done.
      split; [intros [? ?]; done | done].
  - unfold result_document. fold content.
    destruct (decide (50 < length content)) as [Hlt|Hge].
    + rewrite !bool_decide_eq_true_2; [done|done|].
      intros ->. simpl in Hlt. lia.
    + by rewrite (bool_decide_eq_false_2 (50 < _)), andb_false_r.
Qed.

(** C4: the merged output never has more than 8 passages. *)
Theorem deduplicate_and_rank_at_most_8 (docs : list Document) :
  length (_deduplicate_and_rank docs) <= 8.
Proof.
  unfold _deduplicate_and_rank, slice_to. rewrite length_take. lia.
Qed.

(** The same bound through [search_and_retrieve], from a local and a web
    source. *)
Corollary search_and_retrieve_at_most_8 (self : HybridRAGSystem) (q : str)
    (use_local use_web : bool) :
  length (search_and_retrieve self q use_local use_web) <= 8.
Proof. apply deduplicate_and_rank_at_most_8. Qed.

Lemma unique_docs_source (docs : list Document) (doc : Document) :
  doc ∈ unique_docs docs ->
  source_type doc = Some (u "local") \/ source_type doc = Some (u "web").
Proof.
  rewrite unique_docs_keep_first.
  intros [H|H]%elem_of_app; apply keep_first_elem in H as [H _].
  - left. unfold local_of in H. apply list_elem_of_filter in H. tauto.
  - right. unfold web_of in H. apply list_elem_of_filter in H. tauto.
Qed.

(** C10: a passage whose [source_type] is neither "local" nor "web"
    (or is missing) is never in the merged output. *)
Theorem other_source_type_dropped (docs : list Document) (doc : Document) :
  source_type doc <> Some (u "local") ->
  source_type doc <> Some (u "web") ->
  doc ∉ _deduplicate_and_rank docs.
Proof.
  intros Hl Hw Hin. unfold _deduplicate_and_rank, slice_to in Hin.
  apply elem_of_take in Hin as (i & Hi & _).
  apply list_elem_of_lookup_2 in Hi.
  destruct (unique_docs_source docs doc Hi); contradiction.
Qed.

Lemma other_source_type_dropped_witness :
  (untagged_passage (u "tense") ∉
    _deduplicate_and_rank [untagged_passage (u "tense"); local_passage (u "a")])
  /\ length (_deduplicate_and_rank
               [untagged_passage (u "tense"); local_passage (u "a")]) = 1.
Proof.
  split.
  - apply (other_source_type_dropped
             [untagged_passage (u "tense"); local_passage (u "a")]
             (untagged_passage (u "tense"))).
    + vm_compute. discriminate.
    + vm_compute. discriminate.
  - reflexivity.
Defined.

End hybrid.

(** ** Conversation memory *)

Module memory.
Import conversation_memory samples.

(** *** Slices of the history *)

Lemma slice_last_pos {A} (n : Z) (l : list A) :
  (0 < n)%Z -> slice_last n l = drop (length l - Z.to_nat n) l.
Proof.
  intros Hn. unfold slice_last.
  by rewrite (proj2 (Z.ltb_lt 0 n) Hn).
Qed.

Lemma length_slice_last {A} (n : Z) (l : list A) :
  (0 < n)%Z -> (Z.of_nat (length (slice_last n l)) <= n)%Z.
Proof. intros Hn. rewrite slice_last_pos, length_drop by done. lia. Qed.

Lemma slice_last_zero {A} (l : list A) : slice_last 0 l = l.
Proof. reflexivity. Qed.

Lemma slice_last_all {A} (n : Z) (l : list A) :
  (0 < n)%Z -> (Z.of_nat (length l) <= n)%Z -> slice_last n l = l.
Proof.
  intros Hn Hl. rewrite slice_last_pos by done.
  replace (length l - Z.to_nat n) with 0 by lia. done.
Qed.

(** Cutting to the last [n] elements early does not change the last
    [n] elements of a longer list. *)
Lemma slice_last_app {A} (n : Z) (a b : list A) :
  (0 < n)%Z -> slice_last n (slice_last n a ++ b) = slice_last n (a ++ b).
Proof.
  intros Hn. rewrite !slice_last_pos by done.
  rewrite !drop_app, !length_app, !length_drop, drop_drop.
  f_equal; f_equal; lia.
Qed.

Lemma load_records_length (records : list (option ConversationTurn)) :
  length (load_records records) <= length records.
Proof.
  induction records as [|[turn|] records IH]; simpl; lia.
Qed.

(** *** The history bound *)

Lemma init_history_bounded (max_history mcl : Z) (file : str) (now : datetime)
    (files : Files) :
  (1 <= max_history)%Z ->
  (Z.of_nat (length (conversation_history
                       (__init__ max_history mcl file now files)))
   <= max_history)%Z.
Proof.
  intros Hmax. unfold __init__, _load_history. simpl.
  destruct (files !! file) as [[|records]|]; simpl; try lia.
  pose proof (load_records_length (slice_last max_history records)).
  pose proof (length_slice_last max_history records). lia.
Qed.

Lemma init_fields (max_history mcl : Z) (file : str) (now : datetime)
    (files : Files) :
  conversation_memory.max_history (__init__ max_history mcl file now files)
  = max_history
  /\ current_session_id (__init__ max_history mcl file now files)
     = _generate_session_id now.
Proof.
  unfold __init__, _load_history. simpl.
  by destruct (files !! file) as [[|records]|].
Qed.

Lemma add_call_fields (st : ConversationMemory * Files) (c : Call) :
  max_history (add_call st c).1 = max_history st.1
  /\ current_session_id (add_call st c).1 = current_session_id st.1.
Proof. done. Qed.

Lemma add_call_history_raw (st : ConversationMemory * Files) (c : Call) :
  conversation_history (add_call st c).1
  = let history :=
      conversation_history st.1 ++ [turn_of (current_session_id st.1) c] in
    if bool_decide (max_history st.1 < Z.of_nat (length history))%Z
    then slice_last (max_history st.1) history
    else history.
Proof. reflexivity. Qed.

Lemma add_call_history (st : ConversationMemory * Files) (c : Call) :
  (1 <= max_history st.1)%Z ->
  conversation_history (add_call st c).1
  = slice_last (max_history st.1)
      (conversation_history st.1 ++ [turn_of (current_session_id st.1) c]).
Proof.
  intros Hmax. rewrite add_call_history_raw. cbv zeta.
  case_bool_decide as Hlen; [done|].
  symmetry. apply slice_last_all; lia.
Qed.

(** An addition appends the new turn and evicts the oldest turn, and
    only that one, exactly when the history was full. *)
Lemma add_call_evicts_oldest (st : ConversationMemory * Files) (c : Call) :
  (1 <= max_history st.1)%Z ->
  (Z.of_nat (length (conversation_history st.1)) <= max_history st.1)%Z ->
  conversation_history (add_call st c).1
  = (if decide (Z.of_nat (length (conversation_history st.1))
                = max_history st.1)
     then drop 1 (conversation_history st.1)
     else conversation_history st.1)
    ++ [turn_of (current_session_id st.1) c].
Proof.
  intros Hmax Hlen. rewrite add_call_history, slice_last_pos by lia.
  rewrite length_app. simpl. case_decide as Hfull.
  - replace (length (conversation_history st.1) + 1
             - Z.to_nat (max_history st.1)) with 1 by lia.
    rewrite drop_app_le; [done|]. lia.
  - replace (length (conversation_history st.1) + 1
             - Z.to_nat (max_history st.1)) with 0 by lia.
    done.
Qed.

Lemma add_calls_fields (calls : list Call) (st : ConversationMemory * Files) :
  max_history (add_calls st calls).1 = max_history st.1
  /\ current_session_id (add_calls st calls).1 = current_session_id st.1.
Proof.
  revert st. induction calls as [|c calls IH]; intros st; [done|].
  simpl. destruct (IH (add_call st c)) as [-> ->]. apply add_call_fields.
Qed.

(** After any sequence of additions the history is the last
    [max_history] turns, in insertion order. *)
Lemma add_calls_history (calls : list Call) (st : ConversationMemory * Files) :
  (1 <= max_history st.1)%Z ->
  (Z.of_nat (length (conversation_history st.1)) <= max_history st.1)%Z ->
  conversation_history (add_calls st calls).1
  = slice_last (max_history st.1)
      (conversation_history st.1
       ++ map (turn_of (current_session_id st.1)) calls).
Proof.
  revert st. induction calls as [|c calls IH]; intros st Hmax Hlen; simpl.
  - rewrite app_nil_r. symmetry. apply slice_last_all; lia.
  - destruct (add_call_fields st c) as [Hm Hs].
    rewrite IH; rewrite ?Hm, ?Hs; try done.
    + rewrite add_call_history by done.
      rewrite slice_last_app by lia. by rewrite <- app_assoc.
    + rewrite add_call_history by done. apply length_slice_last. lia.
Qed.

(** With the bound 0 the cut [history[-0:]] keeps the whole list. *)
Lemma add_calls_bound_zero (calls : list Call) (st : ConversationMemory * Files) :
  max_history st.1 = 0%Z ->
  conversation_history (add_calls st calls).1
  = conversation_history st.1 ++ map (turn_of (current_session_id st.1)) calls.
Proof.
  revert st. induction calls as [|c calls IH]; intros st Hm; simpl.
  - by rewrite app_nil_r.
  - rewrite IH by done.
    destruct (add_call_fields st c) as [_ ->].
    rewrite add_call_history_raw, Hm. cbv zeta.
    case_bool_decide; rewrite ?slice_last_zero; by rewrite <- app_assoc.
Qed.

(** C5 at its failing input: a memory built with the bound 0.  Every
    addition makes the history one turn longer and nothing is ever
    evicted; after the first addition the history already has more
    turns than the bound. *)
Theorem bound_zero_never_evicts (mcl : Z) (file : str) (now : datetime)
    (files : Files) (calls : list Call) :
  let self := __init__ 0 mcl file now files in
  let st := add_calls (self, files) calls in
  max_history st.1 = 0%Z
  /\ conversation_history st.1
     = conversation_history self
       ++ map (turn_of (current_session_id self)) calls
  /\ length (conversation_history (add_calls (fresh 0) [first_call]).1) = 1.
Proof.
  intros self st. subst st.
  destruct (init_fields 0 mcl file now files) as [Hm _]. fold self in Hm.
  destruct (add_calls_fields calls (self, files)) as [Hm' _].
  split; [by rewrite Hm'|]. split; [|by vm_compute].
  by rewrite add_calls_bound_zero.
Qed.

(** The history bound, for a bound of at least 1: after any sequence of
    additions to a memory built with that bound (whatever the history
    file held) the history has at most [max_history] turns and is made
    of the most recent ones in insertion order; one more addition
    appends its turn and evicts the oldest turn, and only that one,
    exactly when the history is full. *)
Theorem history_bounded_fifo (max_history mcl : Z) (file : str)
    (now : datetime) (files : Files) (calls : list Call) (c : Call) :
  (1 <= max_history)%Z ->
  let self := __init__ max_history mcl file now files in
  let st := add_calls (self, files) calls in
  let turns :=
    conversation_history self
    ++ map (turn_of (current_session_id self)) calls in
  (Z.of_nat (length (conversation_history st.1)) <= max_history)%Z
  /\ conversation_history st.1 = slice_last max_history turns
  /\ conversation_history (add_call st c).1
     = (if decide (Z.of_nat (length (conversation_history st.1)) = max_history)
        then drop 1 (conversation_history st.1)
        else conversation_history st.1)
       ++ [turn_of (current_session_id self) c].
Proof.
  intros Hmax self st turns.
  destruct (init_fields max_history mcl file now files) as [Hm Hs].
  pose proof (init_history_bounded max_history mcl file now files Hmax) as Hb.
  fold self in Hm, Hs, Hb.
  assert (Hh : conversation_history st.1 = slice_last max_history turns).
  { unfold st. rewrite add_calls_history; simpl; rewrite ?Hm; done. }
  assert (Hlen : (Z.of_nat (length (conversation_history st.1))
                  <= max_history)%Z).
  { rewrite Hh. apply length_slice_last. lia. }
  destruct (add_calls_fields calls (self, files)) as [Hm' Hs'].
  simpl in Hm', Hs'. fold st in Hm', Hs'.
  split; [done|]. split; [done|].
  rewrite add_call_evicts_oldest; rewrite ?Hm', ?Hm, ?Hs'; done.
Qed.

Lemma history_bounded_fifo_witness :
  let self :=
    __init__ 10 2000 (u "conversation_history.json") (clock 9 0) ∅ in
  let st := add_calls (self, ∅) eleven_calls in
  let turns :=
    conversation_history self
    ++ map (turn_of (current_session_id self)) eleven_calls in
  (Z.of_nat (length (conversation_history st.1)) <= 10)%Z
  /\ conversation_history st.1 = slice_last 10 turns
  /\ conversation_history (add_call st first_call).1
     = (if decide (Z.of_nat (length (conversation_history st.1)) = 10%Z)
        then drop 1 (conversation_history st.1)
        else conversation_history st.1)
       ++ [turn_of (current_session_id self) first_call].
Proof.
  apply (history_bounded_fifo 10 2000 (u "conversation_history.json")
           (clock 9 0) ∅ eleven_calls first_call).
  lia.
Defined.

(** The scenario of the specification: eleven additions with a bound of
    10 leave the turns of the calls 2 to 11, and the turn of the first
    call is gone. *)
Example eleven_additions_bound_10 :
  let st := add_calls (fresh 10) eleven_calls in
  length (conversation_history st.1) = 10
  /\ conversation_history st.1 = map (turn_of session) (drop 1 eleven_calls)
  /\ Forall (fun turn => turn <> turn_of session (say 1 (u "tense 1") (u "ok")))
       (conversation_history st.1).
Proof.
  assert (H : conversation_history (add_calls (fresh 10) eleven_calls).1
              = map (turn_of session) (drop 1 eleven_calls))
    by (by vm_compute).
  cbv zeta. rewrite H. split; [done|]. split; [done|].
  apply Forall_forall. intros turn Hin ->.
  revert Hin. apply (bool_decide_unpack _). by vm_compute.
Qed.

(** *** Relevance order *)

(** [sort_desc] is the stable sort by decreasing score: its result is a
    permutation of the list, is in decreasing order of score, and keeps
    the elements of any one score in the order they had. *)
Lemma insert_desc_perm {A} (x : Z * A) (l : list (Z * A)) :
  insert_desc x l ≡ₚ x :: l.
Proof.
  induction l as [|y l IH]; simpl; [done|].
  destruct (x.1 <? y.1)%Z; [|done].
  rewrite IH. apply Permutation_swap.
Qed.

Lemma sort_desc_perm {A} (l : list (Z * A)) : sort_desc l ≡ₚ l.
Proof.
  induction l as [|x l IH]; [done|].
  unfold sort_desc in *. simpl. rewrite insert_desc_perm. by f_equiv.
Qed.

Lemma insert_desc_sorted {A} (x : Z * A) (l : list (Z * A)) :
  StronglySorted (fun a b => (b.1 <= a.1)%Z) l ->
  StronglySorted (fun a b => (b.1 <= a.1)%Z) (insert_desc x l).
Proof.
  induction 1 as [|y l Hl IH Hy]; simpl; [by repeat constructor|].
  destruct (Z.ltb_spec x.1 y.1) as [Hlt|Hge].
  - constructor; [done|].
    rewrite insert_desc_perm. constructor; [lia|done].
  - constructor; [by constructor|].
    constructor; [done|].
    eapply Forall_impl; [exact Hy|]. simpl. intros; lia.
Qed.

Lemma sort_desc_sorted {A} (l : list (Z * A)) :
  StronglySorted (fun a b => (b.1 <= a.1)%Z) (sort_desc l).
Proof.
  induction l as [|x l IH]; [constructor|].
  by apply insert_desc_sorted.
Qed.

Lemma insert_desc_stable {A} (k : Z) (x : Z * A) (l : list (Z * A)) :
  filter (fun y => y.1 = k) (insert_desc x l)
  = filter (fun y => y.1 = k) (x :: l).
Proof.
  induction l as [|y l IH]; simpl; [done|].
  destruct (Z.ltb_spec x.1 y.1) as [Hlt|Hge]; [|done].
  rewrite (filter_cons _ y), IH, !(filter_cons _ x), !(filter_cons _ y).
  repeat case_decide; try done. lia.
Qed.

Lemma sort_desc_stable {A} (k : Z) (l : list (Z * A)) :
  filter (fun y => y.1 = k) (sort_desc l) = filter (fun y => y.1 = k) l.
Proof.
  induction l as [|x l IH]; [done|].
  change (sort_desc (x :: l)) with (insert_desc x (sort_desc l)).
  by rewrite insert_desc_stable, !filter_cons, IH.
Qed.

(** The relevant context is a rearrangement of the last five turns. *)
Lemma relevant_context_perm (self : ConversationMemory) (q : str) :
  _get_relevant_context self q ≡ₚ slice_last 5 (conversation_history self).
Proof.
  unfold _get_relevant_context.
  destruct (conversation_history self) as [|turn history] eqn:Hh; [done|].
  rewrite sort_desc_perm, map_map. simpl. by rewrite map_id.
Qed.

(** With equal keyword overlap, the turn that comes first in the history
    has the strictly higher score. *)
Lemma older_turn_scores_higher (self : ConversationMemory)
    (current_keywords : gset str) (older newer : ConversationTurn) :
  index older (conversation_history self)
  < index newer (conversation_history self) ->
  size (current_keywords ∩ list_to_set (keywords older))
  = size (current_keywords ∩ list_to_set (keywords newer)) ->
  (total_score self current_keywords newer
   < total_score self current_keywords older)%Z.
Proof. intros Hlt Heq. unfold total_score. rewrite Heq. lia. Qed.

(** In a list sorted by decreasing score, an element comes before every
    element of strictly lower score. *)
Lemma sorted_desc_before {A} (l : list (Z * A)) (x y : Z * A) :
  StronglySorted (fun a b => (b.1 <= a.1)%Z) l ->
  x ∈ l -> y ∈ l -> (y.1 < x.1)%Z ->
  exists l1 l2 l3, l = l1 ++ x :: l2 ++ y :: l3.
Proof.
  induction 1 as [|z l Hl IH Hz]; intros Hx Hy Hlt.
  - by apply elem_of_nil in Hx.
  - apply elem_of_cons in Hx as [->|Hx].
    + apply elem_of_cons in Hy as [->|Hy]; [lia|].
      apply list_elem_of_split in Hy as (l2 & l3 & ->).
      by exists [], l2, l3.
    + apply elem_of_cons in Hy as [->|Hy].
      * rewrite Forall_forall in Hz. specialize (Hz x Hx). simpl in Hz. lia.
      * destruct (IH Hx Hy Hlt) as (l1 & l2 & l3 & ->).
        by exists (z :: l1), l2, l3.
Qed.

(** So, of two turns among the last five with equal keyword overlap, the
    one that comes first in the history comes first in the relevant
    context as well. *)
Lemma older_turn_ordered_first (self : ConversationMemory) (q : str)
    (older newer : ConversationTurn) :
  older ∈ slice_last 5 (conversation_history self) ->
  newer ∈ slice_last 5 (conversation_history self) ->
  index older (conversation_history self)
  < index newer (conversation_history self) ->
  size ((list_to_set (_extract_keywords q) : gset str)
        ∩ list_to_set (keywords older))
  = size ((list_to_set (_extract_keywords q) : gset str)
          ∩ list_to_set (keywords newer)) ->
  exists l1 l2 l3,
    _get_relevant_context self q = l1 ++ older :: l2 ++ newer :: l3.
Proof.
  intros Ho Hn Hidx Hov.
  pose proof (older_turn_scores_higher self _ older newer Hidx Hov) as Hlt.
  unfold _get_relevant_context.
  destruct (conversation_history self) as [|turn history] eqn:Hh.
  { by apply elem_of_nil in Ho. }
  rewrite <- Hh in Ho, Hn |- *.
  set (cur := list_to_set (_extract_keywords q)) in *.
  set (scored := map (fun t => (total_score self cur t, t))
                     (slice_last 5 (conversation_history self))).
  destruct (sorted_desc_before (sort_desc scored)
              (total_score self cur older, older)
              (total_score self cur newer, newer))
    as (l1 & l2 & l3 & Hsorted).
  - apply sort_desc_sorted.
  - rewrite sort_desc_perm. unfold scored.
    apply list_elem_of_fmap. by exists older.
  - rewrite sort_desc_perm. unfold scored.
    apply list_elem_of_fmap. by exists newer.
  - exact Hlt.
  - exists (map snd l1), (map snd l2), (map snd l3).
    rewrite Hsorted, map_app. simpl. by rewrite map_app.
Qed.

(** C2 at its failing input: two turns with the same keyword overlap
    with the query; the older one has the higher score and comes first,
    in the relevant context and in the text built from it. *)
Theorem older_turn_ranked_first :
  let current_keywords : gset str :=
    list_to_set (_extract_keywords examples_query) in
  conversation_history two_turns = [older_turn; newer_turn]
  /\ size (current_keywords ∩ list_to_set (keywords older_turn)) = 1
  /\ size (current_keywords ∩ list_to_set (keywords newer_turn)) = 1
  /\ total_score two_turns current_keywords older_turn = 4%Z
  /\ total_score two_turns current_keywords newer_turn = 3%Z
  /\ _get_relevant_context two_turns examples_query = [older_turn; newer_turn]
  /\ context_parts_for two_turns examples_query None
     = [_format_context_turn older_turn; _format_context_turn newer_turn].
Proof. repeat split; by vm_compute. Qed.

(** *** Export *)

(** C7: the export succeeds for exactly the two formats, json (the
    argument "json", giving the JSON document) and text (the argument
    "txt", giving the text transcript); for every other format argument
    it raises the [ValueError] "Unsupported export format" and returns
    nothing: there is no default format. *)
Theorem export_formats (json_dumps : list ExportEntry -> str)
    (self : ConversationMemory) (format : str) :
  ((exists s, export_conversation json_dumps self format = Return s)
   <-> format = u "json" \/ format = u "txt")
  /\ export_conversation json_dumps self (u "json")
     = Return (_export_as_json json_dumps self)
  /\ export_conversation json_dumps self (u "txt")
     = Return (_export_as_text self)
  /\ (export_conversation json_dumps self format
      = Raise (ValueError (u "Unsupported export format"))
      <-> format <> u "json" /\ format <> u "txt").
Proof.
  unfold export_conversation. repeat split.
  - intros [s Hs]. repeat case_decide; auto. discriminate.
  - intros [->| ->]; repeat case_decide; eauto; done.
  - intros ->. by repeat case_decide.
  - intros ->. by repeat case_decide.
  - intros [Hj Ht]. by rewrite !decide_False.
Qed.

(** *** Context assembly *)

#[local] Opaque _format_context_turn.

Lemma snippets_length_app (a b : list str) :
  snippets_length (a ++ b) = snippets_length a + snippets_length b.
Proof. unfold snippets_length. by rewrite map_app, sum_list_with_app. Qed.

Lemma length_join (sep : str) (parts : list str) :
  length (join sep parts)
  = snippets_length parts + length sep * (length parts - 1).
Proof.
  induction parts as [|p parts IH]; [simpl; lia|].
  destruct parts as [|p' parts].
  - unfold snippets_length. simpl. lia.
  - change (join sep (p :: p' :: parts)) with (p ++ sep ++ join sep (p' :: parts)).
    rewrite !length_app, IH. unfold snippets_length. simpl. lia.
Qed.

(** The loop keeps whole snippets of a prefix of the turns, stays within
    the bound, and stops at the first turn that would pass it. *)
Lemma collect_context_prefix (max_length : Z) (turns : list ConversationTurn)
    (parts : list str) (current_length : Z) :
  exists n : nat,
    collect_context max_length parts current_length turns
    = parts ++ map _format_context_turn (take n turns)
    /\ (n = 0
        \/ (current_length
            + Z.of_nat (snippets_length
                          (map _format_context_turn (take n turns)))
            <= max_length)%Z)
    /\ (forall turn, turns !! n = Some turn ->
        (max_length
         < current_length
           + Z.of_nat (snippets_length
                         (map _format_context_turn (take n turns)))
           + Z.of_nat (length (_format_context_turn turn)))%Z).
Proof.
  revert parts current_length.
  induction turns as [|turn turns IH]; intros parts current_length.
  - exists 0. simpl. rewrite app_nil_r. split; [done|]. split; [by left|done].
  - cbn [collect_context]. case_bool_decide as Hover.
    + exists 0. simpl. rewrite app_nil_r.
      split; [done|]. split; [by left|].
      intros ? [= <-]. unfold snippets_length. simpl. lia.
    + destruct (IH (parts ++ [_format_context_turn turn])
                  (current_length
                   + Z.of_nat (length (_format_context_turn turn)))%Z)
        as (n & Hres & Hsum & Hstop).
      exists (S n). simpl.
      split; [by rewrite Hres, <- app_assoc|].
      assert (Hcons : forall l,
                 snippets_length (_format_context_turn turn :: l)
                 = length (_format_context_turn turn) + snippets_length l)
        by done.
      rewrite Hcons. split.
      * right. destruct Hsum as [->|Hsum]; [|lia].
        unfold snippets_length. simpl. lia.
      * intros t Ht. specialize (Hstop t Ht). lia.
Qed.

(** C9, as stated, fails: a maximal length of 0 is replaced by the
    configured length, and a snippet is included. *)
Lemma zero_max_length_not_a_bound :
  context_parts_for one_turn examples_query (Some 0%Z)
  = [_format_context_turn older_turn]
  /\ length (_format_context_turn older_turn) = 50
  /\ ~ (Z.of_nat (snippets_length
                   (context_parts_for one_turn examples_query (Some 0%Z)))
       <= 0)%Z.
Proof. split; [by vm_compute|]. split; [by vm_compute|]. by vm_compute. Qed.

(** Below 0 nothing is included, and the empty sum is above the
    maximal length all the same. *)
Example negative_max_length :
  context_parts_for one_turn examples_query (Some (-1)%Z) = []
  /\ get_context_for_query one_turn examples_query (Some (-1)%Z) = [].
Proof. split; by vm_compute. Qed.

(** C9 (amended): for a maximal length [L] of at least 1, the included
    snippets are the whole formatted snippets of a prefix of the turns
    in relevance order; their lengths sum to at most [L]; the first turn
    left out, if any, is one whose snippet would take the sum past [L];
    and the returned text is the header followed by the snippets
    separated by blank lines, so that it is longer than the snippets by
    the header and the separators only. *)
Theorem context_snippets_whole_and_bounded (self : ConversationMemory)
    (q : str) (L : Z) :
  (1 <= L)%Z ->
  let relevant := _get_relevant_context self q in
  let parts := context_parts_for self q (Some L) in
  exists n : nat,
    parts = map _format_context_turn (take n relevant)
    /\ (Z.of_nat (snippets_length parts) <= L)%Z
    /\ (forall turn, relevant !! n = Some turn ->
        (L < Z.of_nat (snippets_length parts
                       + length (_format_context_turn turn)))%Z)
    /\ get_context_for_query self q (Some L)
       = match parts with
         | [] => []
         | _ :: _ =>
             context_header (length parts) ++ join [newline; newline] parts
         end
    /\ length (get_context_for_query self q (Some L))
       = match parts with
         | [] => 0
         | _ :: _ =>
             length (context_header (length parts))
             + snippets_length parts + 2 * (length parts - 1)
         end.
Proof.
  intros HL relevant parts.
  assert (Heff : effective_max_length self (Some L) = L).
  { unfold effective_max_length.
    destruct (Z.eqb_spec L 0) as [->|]; [lia|done]. }
  destruct (collect_context_prefix L relevant [] 0%Z) as (n & Hres & Hsum & Hstop).
  assert (Hparts : parts = map _format_context_turn (take n relevant)).
  { unfold parts, context_parts_for. rewrite Heff. exact Hres. }
  assert (Hget : get_context_for_query self q (Some L)
                 = match parts with
                   | [] => []
                   | _ :: _ =>
                       context_header (length parts)
                       ++ join [newline; newline] parts
                   end).
  { unfold get_context_for_query. fold parts.
    destruct (conversation_history self) eqn:Hh; [|done].
    replace parts with (@nil str); [done|].
    unfold parts, context_parts_for, _get_relevant_context. by rewrite Hh. }
  exists n. split; [done|]. split; [|split; [|split; [done|]]].
  - rewrite Hparts. destruct Hsum as [->|Hsum]; [|lia].
    unfold snippets_length. simpl. lia.
  - intros turn Ht. specialize (Hstop turn Ht). rewrite Hparts. lia.
  - rewrite Hget. destruct parts as [|p parts']; [done|].
    rewrite length_app, length_join. simpl length. lia.
Qed.

Lemma context_snippets_whole_and_bounded_witness :
  let relevant := _get_relevant_context two_turns examples_query in
  let parts := context_parts_for two_turns examples_query (Some 60%Z) in
  exists n : nat,
    parts = map _format_context_turn (take n relevant)
    /\ (Z.of_nat (snippets_length parts) <= 60)%Z
    /\ (forall turn, relevant !! n = Some turn ->
        (60 < Z.of_nat (snippets_length parts
                        + length (_format_context_turn turn)))%Z)
    /\ get_context_for_query two_turns examples_query (Some 60%Z)
       = match parts with
         | [] => []
         | _ :: _ =>
             context_header (length parts) ++ join [newline; newline] parts
         end
    /\ length (get_context_for_query two_turns examples_query (Some 60%Z))
       = match parts with
         | [] => 0
         | _ :: _ =>
             length (context_header (length parts))
             + snippets_length parts + 2 * (length parts - 1)
         end.
Proof.
  apply (context_snippets_whole_and_bounded two_turns examples_query 60).
  lia.
Defined.

(** With room for one snippet only, the first turn in relevance order
    is included whole and the second is left out. *)
Example one_snippet_fits :
  map length (map _format_context_turn
                  (_get_relevant_context two_turns examples_query))
  = [50; 56]
  /\ context_parts_for two_turns examples_query (Some 60%Z)
     = [_format_context_turn older_turn]
  /\ length (get_context_for_query two_turns examples_query (Some 60%Z))
     = 20 + 50.
Proof. repeat split; by vm_compute. Qed.

End memory.

(** * Further properties *)

(** ** First occurrences *)

Module first_occurrences.
Import web_search_integration.

Lemma keep_first_keys_fresh (seen : gset str) (docs : list Document) :
  Forall (fun doc => content_key doc ∉ seen) (keep_first seen docs).
Proof.
  apply Forall_forall. intros doc Hdoc.
  by apply hybrid.keep_first_elem in Hdoc as [_ Hdoc].
Qed.

Lemma keep_first_NoDup (seen : gset str) (docs : list Document) :
  NoDup (map content_key (keep_first seen docs)).
Proof.
  revert seen. induction docs as [|doc docs IH]; intros seen; simpl.
  - constructor.
  - destruct (decide (content_key doc ∈ seen)); [apply IH|].
    simpl. constructor; [|apply IH].
    intros Hin. apply list_elem_of_fmap in Hin as (d & Hk & Hd).
    apply hybrid.keep_first_elem in Hd as [_ Hd]. rewrite <- Hk in Hd.
    set_solver.
Qed.

Lemma keep_first_sublist (seen : gset str) (docs : list Document) :
  keep_first seen docs `sublist_of` docs.
Proof.
  revert seen. induction docs as [|doc docs IH]; intros seen; simpl; [done|].
  destruct (decide (content_key doc ∈ seen)).
  - by apply sublist_cons.
  - by apply sublist_skip.
Qed.

(** A list without repeated keys, none of them seen, is kept whole. *)
Lemma keep_first_id (seen : gset str) (docs : list Document) :
  NoDup (map content_key docs) ->
  Forall (fun doc => content_key doc ∉ seen) docs ->
  keep_first seen docs = docs.
Proof.
  revert seen. induction docs as [|doc docs IH]; intros seen Hnd Hseen; [done|].
  simpl in *. apply NoDup_cons in Hnd as [Hdoc Hnd].
  apply Forall_cons in Hseen as [Hk Hseen].
  rewrite decide_False by done. f_equal. apply IH; [done|].
  apply Forall_forall. intros d Hd.
  rewrite Forall_forall in Hseen. specialize (Hseen d Hd).
  intros [Heq%elem_of_singleton|?]%elem_of_union; [|done].
  apply Hdoc. rewrite <- Heq. apply list_elem_of_fmap. by exists d.
Qed.

End first_occurrences.

(** ** The retrieval methods *)

Module retrieval.
Import web_search_integration enhanced_retrieval samples more_samples.

(** The deduplication loop returns the first five first occurrences. *)
Lemma first_unique_keep_first (results acc : list Document) (seen : gset str) :
  length acc < 5 ->
  first_unique acc seen results = take 5 (acc ++ keep_first seen results).
Proof.
  revert acc seen. induction results as [|doc results IH]; intros acc seen Hacc.
  - simpl. rewrite app_nil_r, take_ge; [done|lia].
  - cbn [first_unique keep_first]. fold (content_key doc).
    destruct (decide (content_key doc ∈ seen)); [by apply IH|].
    replace (acc ++ doc :: keep_first ({[content_key doc]} ∪ seen) results)
      with ((acc ++ [doc]) ++ keep_first ({[content_key doc]} ∪ seen) results)
      by (by rewrite <- app_assoc).
    case_bool_decide as Hfive.
    + rewrite take_app_length'; [done|].
      rewrite length_app in Hfive |- *. simpl in *. lia.
    + apply IH. lia.
Qed.

Lemma foldl_add_mmr_prefix (mmr results : list Document) :
  exists added, foldl add_mmr results mmr = results ++ added
    /\ Forall (fun doc => doc ∈ mmr) added.
Proof.
  revert results. induction mmr as [|doc mmr IH]; intros results; simpl.
  - exists []. by rewrite app_nil_r.
  - destruct (IH (add_mmr results doc)) as (added & -> & Hadded).
    assert (Hmono : Forall (fun d => d ∈ doc :: mmr) added).
    { eapply Forall_impl; [exact Hadded|]. intros d Hd. by right. }
    unfold add_mmr.
    destruct (bool_decide (doc ∉ results) && bool_decide (length results < 6)).
    + exists (doc :: added). rewrite <- app_assoc. split; [done|].
      constructor; [by left|done].
    + by exists added.
Qed.

(** X1: the enhanced retrieval returns at most five documents, no two
    of them with the same first 100 characters, and each of them found
    by the vector or by the MMR retriever. *)
Theorem enhanced_retrieval_five_distinct (self : EnhancedRetriever) (q : str) :
  length (_enhanced_retrieval self q) <= 5
  /\ NoDup (map content_key (_enhanced_retrieval self q))
  /\ Forall (fun doc => doc ∈ vector_retriever self q
                        \/ doc ∈ mmr_retriever self q)
       (_enhanced_retrieval self q).
Proof.
  unfold _enhanced_retrieval. cbv zeta.
  rewrite first_unique_keep_first by (simpl; lia). simpl.
  set (candidates := if bool_decide _ then _ else _).
  split; [rewrite length_take; lia|]. split.
  - rewrite <- firstn_map. eapply sublist_NoDup; [|apply sublist_take].
    apply first_occurrences.keep_first_NoDup.
  - apply Forall_forall. intros doc Hdoc.
    apply elem_of_take in Hdoc as (i & Hi & _).
    apply list_elem_of_lookup_2, hybrid.keep_first_elem in Hi as [Hi _].
    unfold candidates in Hi. case_bool_decide; [|by left].
    destruct (foldl_add_mmr_prefix (mmr_retriever self q)
                (vector_retriever self q)) as (added & Heq & Hadded).
    rewrite Heq in Hi. apply elem_of_app in Hi as [Hi|Hi]; [by left|].
    right. rewrite Forall_forall in Hadded. by apply Hadded.
Qed.

(** X2: the best vector hit is always the first document returned, and
    when the vector retriever finds three documents or more the result
    is made of the first five first occurrences among them, the MMR
    retriever not being consulted. *)
Theorem enhanced_retrieval_top_hit_first (self : EnhancedRetriever) (q : str)
    (top : Document) (others : list Document) :
  vector_retriever self q = top :: others ->
  (exists rest, _enhanced_retrieval self q = top :: rest)
  /\ (length others < 2
      \/ _enhanced_retrieval self q
         = take 5 (keep_first ∅ (top :: others))).
Proof.
  intros Hv. unfold _enhanced_retrieval. cbv zeta.
  rewrite first_unique_keep_first by (simpl; lia). rewrite Hv. simpl.
  split.
  - destruct (foldl_add_mmr_prefix (mmr_retriever self q) (top :: others))
      as (added & Heq & _).
    case_bool_decide; [rewrite Heq|]; simpl;
      rewrite decide_False by set_solver; simpl; eauto.
  - destruct (decide (length others < 2)) as [|Hge]; [by left|right].
    rewrite bool_decide_eq_false_2 by lia. done.
Qed.

Lemma enhanced_retrieval_top_hit_first_witness :
  (exists rest,
     _enhanced_retrieval small_store (u "present perfect")
     = untagged_passage (u "have + past participle") :: rest)
  /\ (length [untagged_passage (u "for and since")] < 2
      \/ _enhanced_retrieval small_store (u "present perfect")
         = take 5 (keep_first ∅ [untagged_passage (u "have + past participle");
                                 untagged_passage (u "for and since")])).
Proof.
  apply (enhanced_retrieval_top_hit_first small_store (u "present perfect")
           (untagged_passage (u "have + past participle"))
           [untagged_passage (u "for and since")]).
  reflexivity.
Defined.

(** With two vector hits the MMR documents fill in, without repeating a
    document that is already there. *)
Example small_store_enhanced :
  _enhanced_retrieval small_store (u "present perfect")
  = [untagged_passage (u "have + past participle");
     untagged_passage (u "for and since");
     untagged_passage (u "already, yet, just")].
Proof. by vm_compute. Qed.

(** X3: [get_relevant_documents] answers for exactly the five method
    names "vector", "mmr", "ensemble", "compression" and "enhanced", and
    raises a [ValueError] naming the method for every other one; on a
    retriever set up by [_setup_retrievers] the ensemble and the
    compression methods return what the vector method returns. *)
Theorem retrieval_methods (vector mmr : Retriever) (q method : str) :
  let self := _setup_retrievers vector mmr in
  ((exists docs, get_relevant_documents self q method = Return docs)
   <-> method ∈ [u "vector"; u "mmr"; u "ensemble"; u "compression";
                 u "enhanced"])
  /\ ((exists e, get_relevant_documents self q method = Raise e)
      <-> get_relevant_documents self q method
          = Raise (ValueError (u "未知的检索方法: " ++ method)))
  /\ get_relevant_documents self q (u "ensemble") = Return (vector q)
  /\ get_relevant_documents self q (u "compression") = Return (vector q)
  /\ get_relevant_documents self q (u "vector") = Return (vector q)
  /\ get_relevant_documents self q (u "mmr") = Return (mmr q).
Proof.
  intros self. split; [|split; [|by repeat split]].
  - unfold get_relevant_documents. split.
    + intros [docs Hdocs]. repeat case_decide; subst; set_solver.
    + intros Hin. repeat case_decide; eauto.
      exfalso. set_solver.
  - unfold get_relevant_documents. split; [|eauto].
    intros [e He]. repeat case_decide; done.
Qed.

End retrieval.

(** ** More on the retrieval quality *)

Module quality_range.
Import retriever_enhanced samples.

Lemma Qltb_lt (a b : Q) : Qltb a b = true <-> (a < b)%Q.
Proof.
  unfold Qltb. rewrite Qlt_alt. destruct (a ?= b)%Q; split; congruence.
Qed.

(** X4: the quality score is always between 0 and 100, and it is 100 as
    soon as five documents are retrieved, whatever their lengths. *)
Theorem quality_score_range (q : str) (docs : list Document) :
  (0 <= quality_score (analyze_retrieval_quality q docs))%Q
  /\ (quality_score (analyze_retrieval_quality q docs) <= 100)%Q
  /\ (length docs < 5
      \/ (quality_score (analyze_retrieval_quality q docs) == 100)%Q).
Proof.
  destruct docs as [|doc docs].
  { split; [done|]. split; [done|]. left. simpl. lia. }
  split; [|split].
  - apply Qle_trans with 20%Q; [done|].
    by apply quality.quality_score_at_least_20.
  - cbn [analyze_retrieval_quality quality_score]. apply Q.le_min_l.
  - destruct (decide (length (doc :: docs) < 5)) as [|Hfive]; [by left|right].
    cbn [analyze_retrieval_quality quality_score]. apply Q.min_l.
    set (m := mean _).
    assert (Hm : (0 <= m / 20)%Q).
    { unfold Qdiv. apply Qmult_le_0_compat; [apply quality.mean_nonneg|done]. }
    apply Qle_trans
      with (inject_Z (Z.of_nat (length (doc :: docs) * 20)) + 0)%Q.
    + rewrite Qplus_0_r. change 100%Q with (inject_Z 100).
      rewrite <- Zle_Qle. lia.
    + by apply Qplus_le_r.
Qed.

(** X5: a report whose score is below 60 always carries a
    recommendation, and it can only come from fewer than three
    documents: three documents or more score at least 60. *)
Theorem low_score_means_few_documents (q : str) (docs : list Document) :
  (quality_score (analyze_retrieval_quality q docs) < 60)%Q ->
  length docs < 3
  /\ recommendations (analyze_retrieval_quality q docs) <> []
  /\ (docs = []
      \/ head (recommendations (analyze_retrieval_quality q docs))
         = Some (u "检索结果较少，考虑降低相似度阈值")).
Proof.
  destruct docs as [|doc docs]; intros Hlow.
  { split; [simpl; lia|]. split; [done|by left]. }
  assert (Hfew : length (doc :: docs) < 3).
  { destruct (decide (length (doc :: docs) < 3)) as [|Hge]; [done|].
    exfalso. revert Hlow. cbn [analyze_retrieval_quality quality_score].
    apply Qle_not_lt, Q.min_glb; [done|].
    set (m := mean _).
    assert (Hm : (0 <= m / 20)%Q).
    { unfold Qdiv. apply Qmult_le_0_compat; [apply quality.mean_nonneg|done]. }
    apply Qle_trans
      with (inject_Z (Z.of_nat (length (doc :: docs) * 20)) + 0)%Q.
    - rewrite Qplus_0_r. change 60%Q with (inject_Z 60).
      rewrite <- Zle_Qle. lia.
    - by apply Qplus_le_r. }
  split; [done|].
  cbn [analyze_retrieval_quality recommendations].
  rewrite bool_decide_eq_true_2 by done. split; [done|by right].
Qed.

Lemma low_score_means_few_documents_witness :
  length [untagged_passage (u "too short")] < 3
  /\ recommendations
       (analyze_retrieval_quality (u "tense") [untagged_passage (u "too short")])
     <> []
  /\ ([untagged_passage (u "too short")] = []
      \/ head (recommendations
                 (analyze_retrieval_quality (u "tense")
                    [untagged_passage (u "too short")]))
         = Some (u "检索结果较少，考虑降低相似度阈值")).
Proof.
  apply (low_score_means_few_documents (u "tense")
           [untagged_passage (u "too short")]).
  by vm_compute.
Defined.

(** X6: the preview of a report shows the first three documents at
    most, each cut to 100 characters and followed by three dots; the
    report on an empty list has no preview. *)
Theorem preview_bounded (q : str) (docs : list Document) :
  match documents_preview (analyze_retrieval_quality q docs) with
  | None => docs = []
  | Some preview =>
      docs <> []
      /\ length preview = Nat.min 3 (length docs)
      /\ Forall (fun s => length s <= 103 /\ drop (length s - 3) s = u "...")
           preview
  end.
Proof.
  destruct docs as [|doc docs]; [done|].
  cbn [analyze_retrieval_quality documents_preview]. split; [done|].
  split; [by rewrite length_map, length_take|].
  apply Forall_forall. intros s Hs.
  apply list_elem_of_fmap in Hs as (d & -> & _).
  unfold slice_to. rewrite length_app.
  pose proof (length_take_le (page_content d) 100).
  assert (Hlen : length (take 100 (page_content d)) <= 100)
    by (rewrite length_take; lia).
  split; [change (length (u "...")) with 3; lia|].
  change (length (u "...")) with 3.
  replace (length (take 100 (page_content d)) + 3 - 3)
    with (length (take 100 (page_content d))) by lia.
  by rewrite drop_app_length.
Qed.

End quality_range.

(** ** The hybrid pipeline *)

Module pipeline.
Import web_search_integration enhanced_retrieval samples more_samples.

(** X7: enhancing a query keeps it as the beginning of the result,
    leaves a query of 20 characters or more as it is, and is idempotent:
    an enhanced query is not enhanced again. *)
Theorem enhance_query_idempotent (q : str) :
  _enhance_query (_enhance_query q) = _enhance_query q
  /\ take (length q) (_enhance_query q) = q
  /\ (length q < 20 \/ _enhance_query q = q).
Proof.
  assert (Hcases :
            (_enhance_query q = q ++ u " English grammar rules examples"
             /\ length q < 20)
            \/ _enhance_query q = q).
  { unfold _enhance_query. destruct (existsb _ _); [|by right].
    case_bool_decide; [by left | by right]. }
  destruct Hcases as [[Heq Hshort]|Heq]; rewrite !Heq.
  - split; [|split; [apply take_app_length | by left]].
    unfold _enhance_query.
    rewrite (bool_decide_eq_false_2 (_ < 20)); [by destruct (existsb _ _)|].
    rewrite length_app.
    change (length (u " English grammar rules examples")) with 31. lia.
  - split; [done|]. split; [by rewrite take_ge | by right].
Qed.

Example enhance_short_chinese_query :
  _enhance_query (u "时态") = u "时态 English grammar rules examples"
  /\ _enhance_query (u "present perfect") = u "present perfect".
Proof. split; by vm_compute. Qed.


Lemma filter_all {A} (P : A -> Prop) `{!forall x, Decision (P x)} (l : list A) :
  Forall P l -> filter P l = l.
Proof.
  induction 1 as [|x l Hx _ IH]; [done|].
  by rewrite filter_cons, decide_True, IH.
Qed.

Lemma web_is_not_local (doc : Document) :
  tags.is_web doc -> ~ tags.is_local doc.
Proof.
  unfold tags.is_web, tags.is_local. intros -> Heq.
  vm_compute in Heq. discriminate.
Qed.

Lemma local_of_app (locals webs : list Document) :
  Forall tags.is_local locals -> Forall tags.is_web webs ->
  local_of (locals ++ webs) = locals /\ web_of (locals ++ webs) = webs.
Proof.
  intros Hl Hw. unfold local_of, web_of. rewrite !filter_app. split.
  - rewrite (filter_all _ locals) by done.
    rewrite (hybrid.filter_none _ webs), app_nil_r; [done|].
    intros doc Hdoc. rewrite Forall_forall in Hw.
    by apply web_is_not_local, Hw.
  - rewrite (filter_all _ webs) by done.
    rewrite (hybrid.filter_none _ locals); [done|].
    intros doc Hdoc Hweb. rewrite Forall_forall in Hl.
    by apply (web_is_not_local doc Hweb), Hl.
Qed.

(** A list of local passages followed by web passages, with no repeated
    key and of 8 passages at most, goes through the step unchanged. *)
Lemma deduplicate_and_rank_fixed (locals webs : list Document) :
  Forall tags.is_local locals -> Forall tags.is_web webs ->
  NoDup (map content_key (locals ++ webs)) ->
  length (locals ++ webs) <= 8 ->
  _deduplicate_and_rank (locals ++ webs) = locals ++ webs.
Proof.
  intros Hl Hw Hnd Hlen.
  destruct (local_of_app locals webs Hl Hw) as [HL HW].
  unfold _deduplicate_and_rank, slice_to.
  rewrite hybrid.unique_docs_keep_first, HL, HW.
  rewrite map_app in Hnd. apply NoDup_app in Hnd as (Hndl & Hdisj & Hndw).
  rewrite first_occurrences.keep_first_id; [| done | ].
  - rewrite first_occurrences.keep_first_id; [by apply take_ge | done |].
    apply Forall_forall. intros doc Hdoc Hin.
    unfold content_keys in Hin. apply elem_of_list_to_set in Hin.
    apply (Hdisj _ Hin). apply list_elem_of_fmap. by exists doc.
  - apply Forall_forall. intros doc _. set_solver.
Qed.

(** The output of the step is a block of local passages followed by a
    block of web passages, each in the order of the input. *)
Lemma deduplicate_and_rank_blocks (docs : list Document) :
  exists locals webs,
    _deduplicate_and_rank docs = locals ++ webs
    /\ Forall tags.is_local locals /\ Forall tags.is_web webs
    /\ locals `sublist_of` local_of docs /\ webs `sublist_of` web_of docs.
Proof.
  unfold _deduplicate_and_rank, slice_to.
  rewrite hybrid.unique_docs_keep_first, take_app.
  set (L := keep_first ∅ (local_of docs)).
  set (W := keep_first (content_keys (local_of docs)) (web_of docs)).
  assert (HL : take 8 L `sublist_of` local_of docs).
  { etrans; [apply sublist_take|apply first_occurrences.keep_first_sublist]. }
  assert (HW : take (8 - length L) W `sublist_of` web_of docs).
  { etrans; [apply sublist_take|apply first_occurrences.keep_first_sublist]. }
  exists (take 8 L), (take (8 - length L) W).
  split; [done|]. split; [|split; [|done]].
  - apply Forall_forall. intros doc Hdoc.
    apply sublist_subseteq in HL.
    apply HL in Hdoc. unfold local_of in Hdoc.
    apply list_elem_of_filter in Hdoc. tauto.
  - apply Forall_forall. intros doc Hdoc.
    apply sublist_subseteq in HW.
    apply HW in Hdoc. unfold web_of in Hdoc.
    apply list_elem_of_filter in Hdoc. tauto.
Qed.

Lemma deduplicate_and_rank_NoDup (docs : list Document) :
  NoDup (map content_key (_deduplicate_and_rank docs)).
Proof.
  unfold _deduplicate_and_rank, slice_to.
  rewrite hybrid.unique_docs_keep_first.
  replace (content_keys (local_of docs))
    with (content_keys (local_of docs) ∪ (∅ : gset str)) by set_solver.
  rewrite <- hybrid.keep_first_app, <- firstn_map.
  eapply sublist_NoDup; [|apply sublist_take].
  apply first_occurrences.keep_first_NoDup.
Qed.

(** X8: every document that the web search returns is tagged as a web
    document, has more than 50 characters of content, and records the
    enhanced query that was sent to the engines. *)
Theorem web_search_documents_tagged (self : HybridRAGSystem) (q : str) (m : Z) :
  Forall (fun doc =>
            tags.is_web doc
            /\ 50 < length (page_content doc)
            /\ metadata doc !! u "query" = Some (_enhance_query q))
         (_web_search self q m).
Proof.
  unfold _web_search. cbv zeta. rewrite hybrid.foldl_search_engine. simpl.
  apply Forall_forall. intros doc Hdoc.
  apply list_elem_of_In, in_concat in Hdoc as (results & Hin & Hdoc).
  apply in_map_iff in Hin as (engine & <- & _).
  apply list_elem_of_In, list_elem_of_omap in Hdoc as (result & _ & Hres).
  unfold result_document in Hres. cbv zeta in Hres.
  destruct (bool_decide (dict_get result (u "content") [] <> [])); [|done].
  case_bool_decide as Hlen; [|done]. simpl in Hres.
  injection Hres as <-. split; [|split; [done|]].
  - unfold tags.is_web, source_type. simpl.
    rewrite !lookup_insert_ne by (intros H; vm_compute in H; discriminate).
    apply lookup_insert_eq.
  - simpl.
    rewrite !lookup_insert_ne by (intros H; vm_compute in H; discriminate).
    apply lookup_insert_eq.
Qed.

(** X9: no two passages of the merged output have the same first 100
    characters. *)
Theorem merged_output_distinct_prefixes (docs : list Document) :
  NoDup (map content_key (_deduplicate_and_rank docs)).
Proof. apply deduplicate_and_rank_NoDup. Qed.

(** X10: the merged output is a block of passages tagged local followed
    by a block of passages tagged web, each block in the order of the
    input. *)
Theorem merged_output_local_first (docs : list Document) :
  exists locals webs,
    _deduplicate_and_rank docs = locals ++ webs
    /\ Forall tags.is_local locals /\ Forall tags.is_web webs
    /\ locals `sublist_of` local_of docs /\ webs `sublist_of` web_of docs.
Proof. apply deduplicate_and_rank_blocks. Qed.

(** X11: the deduplicate-and-rank step is idempotent. *)
Theorem deduplicate_and_rank_idempotent (docs : list Document) :
  _deduplicate_and_rank (_deduplicate_and_rank docs)
  = _deduplicate_and_rank docs.
Proof.
  destruct (deduplicate_and_rank_blocks docs)
    as (locals & webs & Heq & Hl & Hw & _).
  pose proof (deduplicate_and_rank_NoDup docs) as Hnd.
  assert (Hlen : length (_deduplicate_and_rank docs) <= 8).
  { unfold _deduplicate_and_rank, slice_to. rewrite length_take. lia. }
  rewrite Heq in Hnd, Hlen |- *.
  by apply deduplicate_and_rank_fixed.
Qed.

Lemma enhanced_retrieval_bounds (r : EnhancedRetriever) (q : str) :
  length (_enhanced_retrieval r q) <= 5
  /\ NoDup (map content_key (_enhanced_retrieval r q)).
Proof.
  unfold _enhanced_retrieval. cbv zeta.
  rewrite retrieval.first_unique_keep_first by (simpl; lia). simpl.
  split; [rewrite length_take; lia|].
  rewrite <- firstn_map. eapply sublist_NoDup; [|apply sublist_take].
  apply first_occurrences.keep_first_NoDup.
Qed.

Lemma as_local_enhanced (r : EnhancedRetriever) (q : str) :
  as_local_retriever r q = Some (_enhanced_retrieval r q).
Proof.
  unfold as_local_retriever, get_relevant_documents.
  repeat (rewrite decide_False by (intros H; vm_compute in H; discriminate)).
  by rewrite decide_True.
Qed.

Lemma tag_local_tagged (doc : Document) :
  tags.is_local (tag_local doc)
  /\ metadata (tag_local doc) !! u "retrieval_method" = Some (u "vector_search")
  /\ content_key (tag_local doc) = content_key doc.
Proof.
  split; [apply lookup_insert_eq|]. split; [|done]. simpl.
  rewrite lookup_insert_ne by (intros H; vm_compute in H; discriminate).
  apply lookup_insert_eq.
Qed.

Lemma web_search_all_web (self : HybridRAGSystem) (q : str) (m : Z) :
  Forall tags.is_web (_web_search self q m).
Proof.
  unfold _web_search. cbv zeta. rewrite hybrid.foldl_search_engine. simpl.
  apply Forall_forall. intros doc Hdoc.
  apply list_elem_of_In, in_concat in Hdoc as (results & Hin & Hdoc).
  apply in_map_iff in Hin as (engine & <- & _).
  apply list_elem_of_In, list_elem_of_omap in Hdoc as (result & _ & Hres).
  unfold result_document in Hres. cbv zeta in Hres.
  destruct (_ && _); [|done]. injection Hres as <-.
  unfold tags.is_web, source_type. simpl.
  rewrite !lookup_insert_ne by (intros H; vm_compute in H; discriminate).
  apply lookup_insert_eq.
Qed.

(** X12: with the enhanced retriever as local retriever, no local
    passage is lost in the merge: the output begins with all the
    passages of the enhanced retrieval, tagged local and in their order,
    and only web passages follow, as many as the limit of 8 leaves room
    for. *)
Theorem enhanced_local_passages_all_kept (r : EnhancedRetriever)
    (enable : bool) (engines : list Engine) (q : str) (use_web : bool) :
  let system :=
    {| local_retriever := Some (as_local_retriever r);
       enable_web_search := enable;
       search_engines := engines |} in
  exists webs,
    search_and_retrieve system q true use_web
    = map tag_local (_enhanced_retrieval r q) ++ webs
    /\ Forall tags.is_web webs
    /\ length webs <= 8 - length (_enhanced_retrieval r q).
Proof.
  intros system. unfold search_and_retrieve. cbv zeta.
  change (local_retriever system) with (Some (as_local_retriever r)).
  change (enable_web_search system) with enable.
  cbv iota. rewrite as_local_enhanced.
  destruct (enhanced_retrieval_bounds r q) as [Hfive Hnd].
  set (L := _enhanced_retrieval r q) in *.
  set (W := if use_web && enable then _web_search system q 2 else []).
  assert (HW : Forall tags.is_web W).
  { unfold W. destruct (use_web && enable); [apply web_search_all_web|done]. }
  assert (HL : Forall tags.is_local (map tag_local L)).
  { apply Forall_forall. intros doc Hdoc.
    apply list_elem_of_fmap in Hdoc as (d & -> & _). apply tag_local_tagged. }
  assert (Hdocs : (if use_web && enable
                   then map tag_local L ++ _web_search system q 2
                   else map tag_local L) = map tag_local L ++ W).
  { unfold W. destruct (use_web && enable); [done|by rewrite app_nil_r]. }
  rewrite Hdocs.
  destruct (local_of_app (map tag_local L) W HL HW) as [Hlo Hwo].
  unfold _deduplicate_and_rank, slice_to.
  rewrite hybrid.unique_docs_keep_first, Hlo, Hwo.
  rewrite first_occurrences.keep_first_id.
  - rewrite take_app_ge by (rewrite length_map; lia).
    rewrite length_map. eexists. split; [done|]. split.
    + apply Forall_take. apply Forall_forall. intros doc Hdoc.
      apply hybrid.keep_first_elem in Hdoc as [Hdoc _].
      rewrite Forall_forall in HW. by apply HW.
    + rewrite length_take. lia.
  - rewrite map_map.
    erewrite map_ext; [exact Hnd|]. intros doc. apply tag_local_tagged.
  - apply Forall_forall. intros doc _. set_solver.
Qed.

(** For the small store, the three local passages come out tagged. *)
Example small_system_output :
  search_and_retrieve small_system (u "present perfect") true true
  = map tag_local (_enhanced_retrieval small_store (u "present perfect")).
Proof. by vm_compute. Qed.

(** X13: with the web search switched off (by the caller or in the
    system), every passage returned is a local one, tagged with the
    source type "local" and the retrieval method "vector_search"; with
    the local retrieval switched off as well, or failing, nothing is
    returned. *)
Theorem web_off_local_only (self : HybridRAGSystem) (q : str)
    (use_local use_web : bool) :
  use_web && enable_web_search self = false ->
  Forall (fun doc =>
            tags.is_local doc
            /\ metadata doc !! u "retrieval_method" = Some (u "vector_search"))
         (search_and_retrieve self q use_local use_web)
  /\ search_and_retrieve self q false use_web = []
  /\ (match local_retriever self with
      | Some retriever => is_Some (retriever q)
      | None => False
      end
      \/ search_and_retrieve self q use_local use_web = []).
Proof.
  intros Hoff. unfold search_and_retrieve. cbv zeta. rewrite Hoff.
  split; [|split; [done|]].
  - apply Forall_forall. intros doc Hdoc.
    unfold _deduplicate_and_rank, slice_to in Hdoc.
    apply elem_of_take in Hdoc as (i & Hi & _).
    apply list_elem_of_lookup_2 in Hi.
    rewrite hybrid.unique_docs_keep_first in Hi.
    assert (Hin : doc ∈ match (if use_local then local_retriever self else None) with
                        | Some retriever =>
                            match retriever q with
                            | Some local_docs => map tag_local local_docs
                            | None => []
                            end
                        | None => []
                        end).
    { apply elem_of_app in Hi as [Hi|Hi];
        apply hybrid.keep_first_elem in Hi as [Hi _];
        unfold local_of, web_of in Hi;
        apply list_elem_of_filter in Hi; tauto. }
    destruct (if use_local then local_retriever self else None) as [retriever|];
      [|by apply elem_of_nil in Hin].
    destruct (retriever q) as [local_docs|]; [|by apply elem_of_nil in Hin].
    apply list_elem_of_fmap in Hin as (d & -> & _).
    split; apply tag_local_tagged.
  - destruct use_local; [|by right].
    destruct (local_retriever self) as [retriever|]; [|by right].
    destruct (retriever q); [left; eauto | by right].
Qed.

Lemma web_off_local_only_witness :
  Forall (fun doc =>
            tags.is_local doc
            /\ metadata doc !! u "retrieval_method" = Some (u "vector_search"))
         (search_and_retrieve small_system (u "present perfect") true false)
  /\ search_and_retrieve small_system (u "present perfect") false false = []
  /\ (match local_retriever small_system with
      | Some retriever => is_Some (retriever (u "present perfect"))
      | None => False
      end
      \/ search_and_retrieve small_system (u "present perfect") true false = []).
Proof.
  apply (web_off_local_only small_system (u "present perfect") true false).
  reflexivity.
Defined.

End pipeline.

(** ** The DuckDuckGo engine *)

Module web_engines.
Import web_search_integration duckduckgo samples more_samples.

Lemma foldl_add_related (topics results : list (gmap str str)) :
  foldl add_related results topics
  = results
    ++ map related_result
         (filter (fun topic => is_Some (topic !! u "Text")) topics).
Proof.
  revert results. induction topics as [|topic topics IH]; intros results.
  - simpl. by rewrite app_nil_r.
  - simpl. rewrite IH, filter_cons. unfold add_related.
    destruct (decide (is_Some (topic !! u "Text"))); [|done].
    by rewrite <- app_assoc.
Qed.

Lemma length_slice_upto {A} (n : Z) (l : list A) :
  (0 <= n)%Z -> length (slice_upto n l) <= Z.to_nat n.
Proof.
  intros Hn. unfold slice_upto.
  rewrite (proj2 (Z.leb_le 0 n) Hn), length_take. lia.
Qed.

Lemma length_omap_le {A B} (f : A -> option B) (l : list A) :
  length (omap f l) <= length l.
Proof.
  induction l as [|x l IH]; csimpl; [lia|].
  destruct (f x); csimpl; lia.
Qed.

Lemma length_search (response : option Answer) (max_results : Z) :
  (0 <= max_results)%Z ->
  length (search response max_results) <= Z.to_nat max_results.
Proof.
  intros Hm. destruct response as [data|]; [|simpl; lia].
  by apply length_slice_upto.
Qed.

Example sample_answer_two_results :
  map (fun r => dict_get r (u "title") []) (search (Some sample_answer) 2)
  = [u "Present perfect"; u "Past tense"]
  /\ map (fun r => dict_get r (u "title") []) (search (Some sample_answer) 3)
     = [u "Present perfect"; u "Past tense"; u "Perfect (grammar)"].
Proof. split; by vm_compute. Qed.

(** X14: the DuckDuckGo engine returns at most [max_results] results,
    each of them the abstract or a related topic, and none at all when
    the request fails; through the web search with this engine alone, at
    most two documents come back. *)
Theorem duckduckgo_results_bounded (service : str -> option Answer)
    (response : option Answer) (max_results : Z) (q : str) :
  (0 <= max_results)%Z ->
  length (search response max_results) <= Z.to_nat max_results
  /\ Forall (fun r => r !! u "source" = Some (u "DuckDuckGo Abstract")
                      \/ r !! u "source" = Some (u "DuckDuckGo Related"))
       (search response max_results)
  /\ search None max_results = []
  /\ length (_web_search
               {| local_retriever := None;
                  enable_web_search := true;
                  search_engines := [engine service] |} q 2) <= 2.
Proof.
  intros Hm. split; [|split; [|split; [done|]]].
  - by apply length_search.
  - destruct response as [data|]; [|done].
    unfold search. cbv zeta. rewrite foldl_add_related.
    unfold slice_upto. rewrite (proj2 (Z.leb_le 0 max_results) Hm).
    apply Forall_take, Forall_app. split.
    + destruct (Abstract data) as [[|c a]|]; try done.
      constructor; [|done]. left. unfold abstract_result.
      rewrite !lookup_insert_ne by (intros H; vm_compute in H; discriminate).
      apply lookup_insert_eq.
    + apply Forall_forall. intros r Hr.
      apply list_elem_of_fmap in Hr as (topic & -> & _).
      right. unfold related_result.
      rewrite !lookup_insert_ne by (intros H; vm_compute in H; discriminate).
      apply lookup_insert_eq.
  - unfold _web_search. cbv zeta. rewrite hybrid.foldl_search_engine.
    simpl. rewrite app_nil_r. etrans; [apply length_omap_le|].
    by apply (length_search _ 2).
Qed.

Lemma duckduckgo_results_bounded_witness :
  length (search (Some sample_answer) 2) <= Z.to_nat 2
  /\ Forall (fun r => r !! u "source" = Some (u "DuckDuckGo Abstract")
                      \/ r !! u "source" = Some (u "DuckDuckGo Related"))
       (search (Some sample_answer) 2)
  /\ search None 2 = []
  /\ length (_web_search
               {| local_retriever := None;
                  enable_web_search := true;
                  search_engines := [engine (fun _ => Some sample_answer)] |}
               (u "present perfect") 2) <= 2.
Proof.
  apply (duckduckgo_results_bounded (fun _ => Some sample_answer)
           (Some sample_answer) 2 (u "present perfect")).
  lia.
Defined.

Lemma last_segment_no_separator (sep : N) (s segment : str) :
  Forall (fun c => c <> sep) segment ->
  Forall (fun c => c <> sep) (last_segment sep segment s).
Proof.
  revert segment. induction s as [|c s IH]; intros segment Hs; [done|].
  simpl. destruct (N.eqb_spec c sep) as [->|Hne].
  - by apply IH.
  - apply IH, Forall_app. split; [done|]. by constructor.
Qed.

(** X15: the title that the engine gives to a related topic is what
    follows the last slash of its address, with underscores replaced by
    spaces: it contains neither a slash nor an underscore. *)
Theorem related_title_clean (topic : gmap str str) :
  exists title,
    related_result topic !! u "title" = Some title
    /\ Forall (fun c => c <> 47%N /\ c <> 95%N) title.
Proof.
  eexists. split; [apply lookup_insert_eq|].
  unfold replace_char. apply Forall_forall. intros c Hc.
  apply list_elem_of_fmap in Hc as (c' & -> & Hc').
  pose proof (last_segment_no_separator 47 (dict_get topic (u "FirstURL") [])
                [] (Forall_nil_2 _)) as Hseg.
  rewrite Forall_forall in Hseg. specialize (Hseg c' Hc').
  destruct (N.eqb_spec c' 95) as [->|Hne]; [split; discriminate|done].
Qed.

End web_engines.

(** ** The analysis of a hybrid retrieval *)

Module hybrid_quality.
Import web_search_integration app_hybrid samples more_samples.

Lemma Qmin_nonneg (a b : Q) : (0 <= a)%Q -> (0 <= b)%Q -> (0 <= Qmin a b)%Q.
Proof. intros. by apply Q.min_glb. Qed.

Lemma inject_nat_nonneg (n : nat) : (0 <= inject_Z (Z.of_nat n))%Q.
Proof. change 0%Q with (inject_Z 0). rewrite <- Zle_Qle. lia. Qed.

(** X16: the score of a hybrid retrieval is always between 0 and 100,
    and it is at least 10 as soon as one document was retrieved,
    whatever its source tag and its length. *)
Theorem hybrid_score_range (docs : list Document) (use_local use_web : bool) :
  (0 <= quality_score (_analyze_hybrid_retrieval docs use_local use_web))%Q
  /\ (quality_score (_analyze_hybrid_retrieval docs use_local use_web)
      <= 100)%Q
  /\ (docs = []
      \/ (10 <= quality_score
                  (_analyze_hybrid_retrieval docs use_local use_web))%Q).
Proof.
  destruct docs as [|doc docs]; [by repeat split; auto|].
  cbn [_analyze_hybrid_retrieval quality_score].
  set (base := Qmin 50 _). set (len := Qmin 30 _). set (div := Qmin 20 _).
  assert (Hbase : (10 <= base)%Q).
  { apply Q.min_glb; [done|]. change 10%Q with (inject_Z 10).
    rewrite <- Zle_Qle. simpl length. lia. }
  assert (Hlen : (0 <= len)%Q).
  { apply Qmin_nonneg; [done|]. unfold Qdiv.
    apply Qmult_le_0_compat; [|done].
    apply Qmult_le_0_compat; [apply inject_nat_nonneg|].
    apply Qinv_le_0_compat, inject_nat_nonneg. }
  assert (Hdiv : (0 <= div)%Q).
  { apply Qmin_nonneg; [done|apply inject_nat_nonneg]. }
  assert (Hsum : (10 <= base + len + div)%Q).
  { apply Qle_trans with (10 + 0 + 0)%Q; [done|].
    apply Qplus_le_compat; [apply Qplus_le_compat|]; done. }
  split; [|split; [apply Q.le_min_l|right]].
  - apply Q.min_glb; [done|]. by apply Qle_trans with 10%Q.
  - by apply Q.min_glb.
Qed.

Lemma breakdown_counts (docs : list Document) (n m : nat) :
  foldl count_source (n, m) docs
  = (n + length (local_docs_of docs), m + length (web_docs_of docs)).
Proof.
  revert n m. induction docs as [|doc docs IH]; intros n m; simpl.
  - f_equal; lia.
  - unfold local_docs_of, web_docs_of in *. rewrite !filter_cons.
    unfold count_source at 2. unfold dict_get.
    change (metadata doc !! u "source_type") with (source_type doc).
    destruct (source_type doc) as [t|] eqn:Ht; simpl.
    + destruct (decide (t = u "local")) as [->|Hl].
      * rewrite decide_True by done.
        rewrite decide_False by (intros H; vm_compute in H; discriminate).
        rewrite IH. simpl. f_equal; lia.
      * rewrite (decide_False (P := Some t = Some (u "local"))) by congruence.
        destruct (decide (t = u "web")) as [->|Hw].
        -- rewrite decide_True by done. rewrite IH. simpl. f_equal; lia.
        -- rewrite (decide_False (P := Some t = Some (u "web"))) by congruence.
           by rewrite IH.
    + rewrite ?decide_False by (intros H; vm_compute in H; discriminate).
      by rewrite IH.
Qed.

(** X17: the breakdown of a list of documents agrees with the counts of
    the quality report, and on the output of the hybrid search the local
    and the web documents account for every document. *)
Theorem breakdown_accounts_for_all (self : HybridRAGSystem) (q : str)
    (use_local use_web : bool) (docs : list Document) :
  let found := search_and_retrieve self q use_local use_web in
  let report := _analyze_hybrid_retrieval docs use_local use_web in
  _get_docs_breakdown docs = (num_local_docs report, num_web_docs report)
  /\ (_get_docs_breakdown found).1 + (_get_docs_breakdown found).2
     = length found.
Proof.
  intros found report. unfold _get_docs_breakdown. rewrite !breakdown_counts.
  split; [by destruct docs|]. simpl.
  assert (Hall : Forall (fun doc => tags.is_local doc \/ tags.is_web doc) found).
  { apply Forall_forall. intros doc Hdoc.
    unfold found, search_and_retrieve, _deduplicate_and_rank, slice_to in Hdoc.
    cbv zeta in Hdoc. apply elem_of_take in Hdoc as (i & Hi & _).
    apply list_elem_of_lookup_2 in Hi. by apply hybrid.unique_docs_source in Hi. }
  clearbody found. induction Hall as [|doc found Hdoc _ IH]; [done|].
  unfold local_docs_of, web_docs_of in *. rewrite !filter_cons.
  destruct Hdoc as [Hl|Hw].
  - rewrite decide_True by done.
    rewrite decide_False
      by (intros Hweb; by apply (pipeline.web_is_not_local doc)).
    simpl. lia.
  - rewrite decide_False by (by apply pipeline.web_is_not_local).
    rewrite decide_True by done. simpl. lia.
Qed.

End hybrid_quality.

(** ** Persistence of the conversation memory *)

Module persistence.
Import conversation_memory samples.

Lemma load_records_Some (history : list ConversationTurn) :
  load_records (map Some history) = history.
Proof. induction history as [|turn history IH]; simpl; [done|by rewrite IH]. Qed.

Lemma slice_last_length_le {A} (n : Z) (l : list A) :
  (0 <= n)%Z -> (n = 0%Z \/ Z.of_nat (length l) <= n)%Z -> slice_last n l = l.
Proof.
  intros Hn [->|Hl]; [done|].
  destruct (decide (n = 0%Z)) as [->|]; [done|].
  apply memory.slice_last_all; lia.
Qed.

(** The history of a memory read back from the file of [self]. *)
Lemma reload_saved (self : ConversationMemory) (mcl : Z) (now : datetime)
    (files : Files) :
  (0 <= max_history self)%Z ->
  (max_history self = 0%Z
   \/ Z.of_nat (length (conversation_history self)) <= max_history self)%Z ->
  conversation_history
    (__init__ (max_history self) mcl (memory_file self) now
       (_save_history self files))
  = conversation_history self.
Proof.
  intros Hmax Hlen. unfold __init__, _load_history, _save_history. simpl.
  rewrite lookup_insert_eq. simpl.
  rewrite slice_last_length_le; [apply load_records_Some | done |].
  by rewrite length_map.
Qed.

(** X18: what an addition saves is what a restart loads: a memory built
    afterwards on the same file with the same bound (a bound of 0 or
    more) has the history that the memory had after the addition. *)
Theorem restart_restores_history (self : ConversationMemory) (c : Call)
    (files : Files) (mcl : Z) (now : datetime) :
  (0 <= max_history self)%Z ->
  let st := add_call (self, files) c in
  conversation_history
    (__init__ (max_history self) mcl (memory_file self) now st.2)
  = conversation_history st.1.
Proof.
  intros Hmax st.
  assert (Hfile : st.2 = _save_history st.1 files) by done.
  rewrite Hfile.
  change (max_history self) with (max_history st.1).
  change (memory_file self) with (memory_file st.1).
  apply reload_saved; [done|].
  destruct (decide (max_history self = 0%Z)) as [|Hne]; [by left|right].
  unfold st. rewrite (memory.add_call_history (self, files) c) by (simpl; lia).
  apply memory.length_slice_last. simpl. lia.
Qed.

Lemma restart_restores_history_witness :
  let st := add_call (fresh 2) first_call in
  conversation_history
    (__init__ (max_history (fresh 2).1) 500 (memory_file (fresh 2).1)
       (clock 10 0) st.2)
  = conversation_history st.1.
Proof.
  apply (restart_restores_history (fresh 2).1 first_call (fresh 2).2 500
           (clock 10 0)).
  by vm_compute.
Defined.

(** With a negative bound the restart loses turns: the cut drops turns
    from the front once when saving and once more when loading. *)
Example negative_bound_not_restored :
  let self :=
    {| max_history := -1; max_context_length := 2000;
       memory_file := u "conversation_history.json";
       conversation_history := [older_turn; newer_turn];
       current_session_id := session |} in
  let st := add_call (self, ∅) first_call in
  length (conversation_history st.1) = 2
  /\ length (conversation_history
               (__init__ (-1) 2000 (u "conversation_history.json")
                  (clock 10 0) st.2)) = 1.
Proof. split; by vm_compute. Qed.

(** X19: clearing the history empties it, removes the file and leaves
    no context for any query; a memory built afterwards on the same file
    starts empty; the bounds of the memory are unchanged. *)
Theorem clear_history_forgets (self : ConversationMemory) (now now' : datetime)
    (files : Files) (q : str) (max_length : option Z) (mcl : Z) :
  let st := clear_history self now files in
  conversation_history st.1 = []
  /\ st.2 !! memory_file self = None
  /\ get_context_for_query st.1 q max_length = []
  /\ conversation_history
       (__init__ (max_history self) mcl (memory_file self) now' st.2) = []
  /\ max_history st.1 = max_history self
  /\ max_context_length st.1 = max_context_length self
  /\ current_session_id st.1 = _generate_session_id now.
Proof.
  intros st. repeat split; try done.
  - apply lookup_delete_eq.
  - unfold __init__, _load_history. simpl. by rewrite lookup_delete_eq.
Qed.

(** X20: [reset_conversation_memory] forgets the saved history only when
    a global instance exists: it then clears that instance and its file
    before building the new one; when no instance exists yet, the file
    is left as it is and the new instance loads the saved history. *)
Theorem reset_needs_an_instance (now0 now now' : datetime)
    (files0 files : Files) :
  let existing := (get_conversation_memory None now0 files0).2 in
  (exists memory,
     (reset_conversation_memory existing now now' files).1 = Some memory
     /\ conversation_history memory = []
     /\ (reset_conversation_memory existing now now' files).2
        !! u "conversation_history.json" = None)
  /\ (exists memory,
        (reset_conversation_memory None now now' files).1 = Some memory
        /\ conversation_history memory
           = conversation_history (default_memory now' files)
        /\ (reset_conversation_memory None now now' files).2 = files).
Proof.
  intros existing. split.
  - eexists. split; [done|].
    assert (Hfile : memory_file (default_memory now0 files0)
                    = u "conversation_history.json").
    { unfold default_memory, __init__, _load_history. simpl.
      by destruct (files0 !! _) as [[|records]|]. }
    unfold existing, get_conversation_memory, reset_conversation_memory,
      clear_history. cbv zeta. simpl. rewrite Hfile. split.
    + unfold default_memory, __init__, _load_history. simpl.
      by rewrite lookup_delete_eq.
    + apply lookup_delete_eq.
  - by eexists.
Qed.

(** A saved turn survives a reset made before the first use of the
    global memory. *)
Example reset_without_instance_reloads :
  let files := (add_call (fresh 10) first_call).2 in
  option_map conversation_history
    (reset_conversation_memory None (clock 10 0) (clock 10 1) files).1
  = Some [older_turn].
Proof. by vm_compute. Qed.

End persistence.

(** ** Keywords *)

Module keyword_extraction.
Import conversation_memory samples.

Lemma startswith_app (s t p : str) :
  startswith s p = true -> startswith (s ++ t) p = true.
Proof.
  revert p. induction s as [|c s IH]; intros [|a p]; simpl; try done.
  - intros _. by destruct t.
  - intros [Hc Hp]%andb_prop. rewrite Hc. simpl. by apply IH.
Qed.

Lemma contains_cons (c : N) (s p : str) :
  contains (c :: s) p = startswith (c :: s) p || contains s p.
Proof. done. Qed.

Lemma contains_app_l (s t p : str) :
  contains s p = true -> contains (s ++ t) p = true.
Proof.
  induction s as [|c s IH].
  - destruct p as [|a p]; [|done]. intros _. by destruct t.
  - rewrite contains_cons. intros [Hs|Hc]%orb_prop.
    + change ((c :: s) ++ t) with (c :: (s ++ t)). rewrite contains_cons.
      change (c :: (s ++ t)) with ((c :: s) ++ t).
      by rewrite startswith_app.
    + change ((c :: s) ++ t) with (c :: (s ++ t)).
      rewrite contains_cons, IH by done. apply orb_true_r.
Qed.

Lemma contains_app_r (s t p : str) :
  contains t p = true -> contains (s ++ t) p = true.
Proof.
  intros Ht. induction s as [|c s IH]; [done|].
  change ((c :: s) ++ t) with (c :: (s ++ t)).
  rewrite contains_cons, IH. apply orb_true_r.
Qed.

Lemma lower_idempotent (s : str) : lower (lower s) = lower s.
Proof.
  unfold lower. rewrite map_map. apply map_ext. intros c. unfold lower_char.
  destruct (N.leb_spec 65 c), (N.leb_spec c 90); simpl;
    repeat match goal with
           | |- context [N.leb ?a ?b] => destruct (N.leb_spec a b); simpl
           end;
    try done; lia.
Qed.

Lemma vocabulary_NoDup : NoDup (english_grammar_terms ++ chinese_grammar_terms).
Proof. apply (bool_decide_unpack _). by vm_compute. Qed.

(** X21: the keywords of a turn are extracted from the query, a space
    and the answer put together, and nothing is lost by that: every
    keyword of the query alone and every keyword of the answer alone is
    a keyword of the turn. *)
Theorem turn_keywords_cover_query_and_answer (q a : str) :
  _extract_keywords q ⊆ _extract_keywords (q ++ u " " ++ a)
  /\ _extract_keywords a ⊆ _extract_keywords (q ++ u " " ++ a).
Proof.
  unfold _extract_keywords. cbv zeta. split; intros k Hk;
    apply list_elem_of_filter in Hk as [Hk Hin];
    apply list_elem_of_filter; (split; [|done]);
    unfold lower in *; rewrite !map_app.
  - by apply contains_app_l.
  - by apply contains_app_r, contains_app_r.
Qed.

(** X22: in whatever order the set of the matched terms is listed,
    the keywords of a text are terms of the vocabulary without
    repetition, so at most 38 of them; and they do not depend on the
    case of the ASCII letters of the text: the same list is a listing of
    the keywords of the text in lower case. *)
Theorem keywords_from_vocabulary (text : str) (keywords : list str) :
  keywords ≡ₚ _extract_keywords text ->
  keywords ⊆ english_grammar_terms ++ chinese_grammar_terms
  /\ NoDup keywords
  /\ length keywords <= 38
  /\ keywords ≡ₚ _extract_keywords (lower text).
Proof.
  intros Hperm. rewrite Hperm.
  unfold _extract_keywords. cbv zeta. split.
  - apply sublist_subseteq, sublist_filter.
  - split; [apply NoDup_filter, vocabulary_NoDup|]. split.
    + etrans; [apply length_filter|]. by vm_compute.
    + by rewrite lower_idempotent.
Qed.

Lemma keywords_from_vocabulary_witness :
  let text := u "The PRESENT Perfect 和现在完成时" in
  let keywords := [u "现在完成时"; u "present perfect"] in
  keywords ≡ₚ _extract_keywords text
  /\ keywords ⊆ english_grammar_terms ++ chinese_grammar_terms
  /\ NoDup keywords
  /\ length keywords <= 38
  /\ keywords ≡ₚ _extract_keywords (lower text).
Proof.
  assert (Hperm : [u "现在完成时"; u "present perfect"]
                  ≡ₚ _extract_keywords (u "The PRESENT Perfect 和现在完成时"))
    by (vm_compute; apply perm_swap).
  split; [exact Hperm|].
  exact (keywords_from_vocabulary _ _ Hperm).
Defined.

End keyword_extraction.

(** ** Conversation statistics *)

Module statistics.
Import conversation_memory samples.

(** The number of occurrences of a keyword in a list of keywords. *)
Lemma occurrences_snoc (t k : str) (l : list str) :
  length (filter (fun x => x = t) (l ++ [k]))
  = length (filter (fun x => x = t) l) + (if decide (k = t) then 1 else 0).
Proof.
  rewrite filter_app, length_app, filter_cons. by destruct (decide (k = t)).
Qed.

Lemma count_topic_keys (k : str) (counts : list (str * nat)) :
  map fst (count_topic k counts)
  = if decide (k ∈ map fst counts) then map fst counts
    else map fst counts ++ [k].
Proof.
  induction counts as [|[t n] counts IH].
  - destruct (decide (k ∈ map fst (@nil (str * nat)))) as [Hin|_]; [|done].
    by apply elem_of_nil in Hin.
  - cbn [count_topic].
    destruct (decide (k ∈ map fst ((t, n) :: counts))) as [Hin|Hnin];
      destruct (decide (t = k)) as [->|Hne];
      cbn [map fst] in *.
    + done.
    + rewrite IH. apply elem_of_cons in Hin as [?|Hin]; [congruence|].
      by rewrite decide_True.
    + exfalso. apply Hnin. by left.
    + rewrite IH. rewrite decide_False; [done|].
      intros ?. apply Hnin. by right.
Qed.

Lemma count_topic_elem (k : str) (counts : list (str * nat)) (t : str) (n : nat) :
  NoDup (map fst counts) ->
  (t, n) ∈ count_topic k counts ->
  (t <> k /\ (t, n) ∈ counts)
  \/ (t = k /\ (((k ∉ map fst counts) /\ n = 1)
               \/ exists n', (k, n') ∈ counts /\ n = S n')).
Proof.
  induction counts as [|[t' n'] counts IH]; simpl; intros Hnd Hin.
  - apply list_elem_of_singleton in Hin as [= -> ->].
    right. split; [done|]. left. split; [apply not_elem_of_nil|done].
  - apply NoDup_cons in Hnd as [Ht' Hnd].
    destruct (decide (t' = k)) as [->|Hne].
    + apply elem_of_cons in Hin as [[= -> ->]|Hin].
      * right. split; [done|]. right. exists n'. split; [by left|done].
      * left. split; [|by right]. intros ->. apply Ht'.
        apply list_elem_of_fmap. by exists (k, n).
    + apply elem_of_cons in Hin as [[= -> ->]|Hin].
      * left. split; [done|by left].
      * destruct (IH Hnd Hin) as [[Hk Hc]|[-> [[Hk ->]|(m & Hm & ->)]]].
        -- left. split; [done|by right].
        -- right. split; [done|]. left. split; [|done].
           intros [?|?]%elem_of_cons; [congruence|done].
        -- right. split; [done|]. right. exists m. split; [by right|done].
Qed.

(** The counting loop keeps one entry per keyword, with the number of
    its occurrences so far. *)
Lemma count_topics_exact (keywords seen : list str) (counts : list (str * nat)) :
  NoDup (map fst counts) ->
  Forall (fun item =>
            item.2 = length (filter (fun x => x = item.1) seen) /\ 0 < item.2)
         counts ->
  Forall (fun k => k ∈ map fst counts) seen ->
  let counts' :=
    foldl (fun topic_counts keyword => count_topic keyword topic_counts)
          counts keywords in
  NoDup (map fst counts')
  /\ Forall (fun item =>
               item.2 = length (filter (fun x => x = item.1) (seen ++ keywords))
               /\ 0 < item.2)
            counts'
  /\ Forall (fun k => k ∈ map fst counts') (seen ++ keywords).
Proof.
  revert seen counts.
  induction keywords as [|k keywords IH]; intros seen counts Hnd Hall Hseen.
  - simpl. by rewrite app_nil_r.
  - simpl. rewrite cons_middle, app_assoc. apply IH.
    + rewrite count_topic_keys. case_decide as Hk; [done|].
      apply NoDup_app. split; [done|]. split; [|apply NoDup_singleton].
      intros x Hx ->%list_elem_of_singleton. done.
    + apply Forall_forall. intros [t n] Hin. simpl.
      rewrite Forall_forall in Hall. rewrite occurrences_snoc.
      destruct (count_topic_elem k counts t n Hnd Hin)
        as [[Hne Hc]|[-> [[Hk ->]|(m & Hm & ->)]]].
      * destruct (Hall _ Hc) as [Heq Hpos]. simpl in *.
        rewrite decide_False by done. lia.
      * rewrite decide_True by done. split; [|lia].
        rewrite (hybrid.filter_none _ seen); [done|].
        intros x Hx ->. rewrite Forall_forall in Hseen. by apply Hk, Hseen.
      * destruct (Hall _ Hm) as [Heq Hpos]. simpl in *.
        rewrite decide_True by done. lia.
    + apply Forall_app. split.
      * eapply Forall_impl; [exact Hseen|]. intros x Hx. simpl in Hx.
        rewrite count_topic_keys. case_decide; [done|].
        apply elem_of_app. by left.
      * constructor; [|done]. rewrite count_topic_keys.
        case_decide; [done|]. apply elem_of_app. right. by left.
Qed.

Lemma StronglySorted_take {A} (R : relation A) (n : nat) (l : list A) :
  StronglySorted R l -> StronglySorted R (take n l).
Proof.
  intros Hs. rewrite <- (take_drop n l) in Hs.
  by apply StronglySorted_app_1_l in Hs.
Qed.

Lemma most_discussed_perm (counts : list (str * nat)) :
  map snd (sort_desc (map (fun item => (Z.of_nat item.2, item)) counts))
  ≡ₚ counts.
Proof.
  rewrite memory.sort_desc_perm, map_map. simpl. by rewrite map_id.
Qed.

Lemma sorted_by_count (l : list (Z * (str * nat))) :
  Forall (fun p => p.1 = Z.of_nat p.2.2) l ->
  StronglySorted (fun a b => (b.1 <= a.1)%Z) l ->
  StronglySorted (fun a b : str * nat => b.2 <= a.2) (map snd l).
Proof.
  intros Hkey Hs. induction Hs as [|p l Hs IH Hp]; simpl; [constructor|].
  apply Forall_cons in Hkey as [Hkp Hkey]. constructor; [by apply IH|].
  apply Forall_forall. intros item Hitem.
  apply list_elem_of_fmap in Hitem as (p' & -> & Hp').
  rewrite Forall_forall in Hp, Hkey.
  specialize (Hp p' Hp'). specialize (Hkey p' Hp'). simpl in *. lia.
Qed.

(** X23: the most discussed topics of the statistics are at most five
    different keywords, each with the exact number of its occurrences in
    the keywords of the history (one at least), listed by decreasing
    count. *)
Theorem most_discussed_topics_exact (round1 : Q -> Q)
    (self : ConversationMemory) :
  let topics := most_discussed_topics (get_conversation_stats round1 self) in
  let all_keywords := concat (map keywords (conversation_history self)) in
  length topics <= 5
  /\ NoDup (map fst topics)
  /\ Forall (fun item =>
               item.2 = length (filter (fun x => x = item.1) all_keywords)
               /\ 0 < item.2)
            topics
  /\ StronglySorted (fun a b : str * nat => b.2 <= a.2) topics.
Proof.
  intros topics all_keywords. unfold topics, get_conversation_stats.
  destruct (conversation_history self) as [|turn history] eqn:Hh.
  { simpl. repeat split; try constructor. lia. }
  cbn [most_discussed_topics]. fold all_keywords.
  destruct (count_topics_exact all_keywords [] [])
    as (Hnd & Hexact & _); [constructor..|].
  fold (count_topics all_keywords) in Hnd, Hexact. simpl in Hexact.
  unfold most_discussed, slice_to.
  set (sorted := sort_desc _).
  assert (Hperm : map snd sorted ≡ₚ count_topics all_keywords)
    by apply most_discussed_perm.
  split; [rewrite length_take; lia|]. split; [|split].
  - rewrite <- firstn_map. eapply sublist_NoDup; [|apply sublist_take].
    eapply NoDup_Permutation_proper; [|exact Hnd].
    by apply Permutation_map.
  - apply Forall_take. by rewrite Hperm.
  - apply StronglySorted_take.
    apply sorted_by_count; [|apply memory.sort_desc_sorted].
    unfold sorted. rewrite memory.sort_desc_perm.
    apply Forall_forall. intros p Hp.
    by apply list_elem_of_fmap in Hp as (item & -> & _).
Qed.

End statistics.

(** ** Sessions *)

Module sessions.
Import conversation_memory samples.

Lemma Forall_slice_last {A} (P : A -> Prop) (n : Z) (l : list A) :
  Forall P l -> Forall P (slice_last n l).
Proof. unfold slice_last. destruct (0 <? n)%Z; apply Forall_drop. Qed.

(** An addition keeps the history within the current session when it
    was so before. *)
Lemma add_call_one_session (st : ConversationMemory * Files) (c : Call) :
  Forall (fun turn => session_id turn = current_session_id st.1)
         (conversation_history st.1) ->
  Forall (fun turn => session_id turn = current_session_id (add_call st c).1)
         (conversation_history (add_call st c).1).
Proof.
  intros Hone.
  destruct (memory.add_call_fields st c) as [_ ->].
  rewrite memory.add_call_history_raw. cbv zeta.
  assert (Hall : Forall (fun turn => session_id turn = current_session_id st.1)
                   (conversation_history st.1
                    ++ [turn_of (current_session_id st.1) c])).
  { apply Forall_app. split; [done|]. by constructor. }
  case_bool_decide; [|done].
  by apply Forall_slice_last.
Qed.

Lemma add_calls_one_session (calls : list Call)
    (st : ConversationMemory * Files) :
  Forall (fun turn => session_id turn = current_session_id st.1)
         (conversation_history st.1) ->
  Forall (fun turn => session_id turn = current_session_id (add_calls st calls).1)
         (conversation_history (add_calls st calls).1).
Proof.
  revert st. induction calls as [|c calls IH]; intros st Hone; [done|].
  apply (IH (add_call st c)). by apply add_call_one_session.
Qed.

Lemma filter_all_length {A} (P : A -> Prop) `{!forall x, Decision (P x)}
    (l : list A) :
  Forall P l -> length (filter P l) = length l.
Proof.
  induction 1 as [|x l Hx _ IH]; [done|].
  rewrite filter_cons, decide_True by done. simpl. by rewrite IH.
Qed.

(** X24: after the history was cleared, whatever turns are added and
    whatever the bound on the history, the statistics count every turn
    of the history in the current session: the session length equals the
    total, which is the length of the history. *)
Theorem cleared_memory_single_session (round1 : Q -> Q)
    (self : ConversationMemory) (now : datetime) (files : Files)
    (calls : list Call) :
  let memory := (add_calls (clear_history self now files) calls).1 in
  let stats := get_conversation_stats round1 memory in
  total_conversations stats = length (conversation_history memory)
  /\ current_session_length stats = total_conversations stats.
Proof.
  intros memory stats.
  assert (Hone : Forall (fun turn => session_id turn = current_session_id memory)
                   (conversation_history memory)).
  { apply add_calls_one_session. constructor. }
  unfold stats, get_conversation_stats.
  destruct (conversation_history memory) as [|turn history] eqn:Hh; [done|].
  cbn [total_conversations current_session_length].
  split; [done|]. by apply filter_all_length.
Qed.

(** The turns restored from the file keep the session they were written
    in: a memory built over the file of an earlier session counts none
    of its turns in the current session. *)
Example restored_turns_of_earlier_session :
  let files := (add_calls (fresh 2) [first_call; second_call]).2 in
  let memory := __init__ 2 2000 (memory_file (fresh 2).1) (clock 10 0) files in
  let stats := get_conversation_stats (fun x => x) memory in
  total_conversations stats = 2 /\ current_session_length stats = 0.
Proof. by vm_compute. Qed.

End sessions.

(** ** The context of a query *)

Module context.
Import conversation_memory samples.

Lemma scored_sorted {A} (f : A -> Z) (l : list (Z * A)) :
  Forall (fun p => p.1 = f p.2) l ->
  StronglySorted (fun a b => (b.1 <= a.1)%Z) l ->
  StronglySorted (fun a b => (f b <= f a)%Z) (map snd l).
Proof.
  intros Hkey Hs. induction Hs as [|p l Hs IH Hp]; simpl; [constructor|].
  apply Forall_cons in Hkey as [Hkp Hkey]. constructor; [by apply IH|].
  apply Forall_forall. intros item Hitem.
  apply list_elem_of_fmap in Hitem as (p' & -> & Hp').
  rewrite Forall_forall in Hp, Hkey.
  specialize (Hp p' Hp'). specialize (Hkey p' Hp'). simpl in *. lia.
Qed.

Lemma length_last_five {A} (l : list A) : length (slice_last 5 l) <= 5.
Proof. pose proof (memory.length_slice_last 5 l). lia. Qed.

(** X25: the relevant context of a query is a rearrangement of the last
    five turns of the history (all of them when there are fewer), at
    most five turns, in the order of non-increasing total score. *)
Theorem relevant_context_ranked (self : ConversationMemory)
    (current_query : str) :
  let turns := _get_relevant_context self current_query in
  let score :=
    total_score self (list_to_set (_extract_keywords current_query)) in
  turns ≡ₚ slice_last 5 (conversation_history self)
  /\ length turns <= 5
  /\ StronglySorted (fun a b => (score b <= score a)%Z) turns.
Proof.
  intros turns score.
  assert (Hperm : turns ≡ₚ slice_last 5 (conversation_history self))
    by apply memory.relevant_context_perm.
  split; [done|]. split; [rewrite Hperm; apply length_last_five|].
  unfold turns, _get_relevant_context.
  destruct (conversation_history self) as [|turn history] eqn:Hh;
    [constructor|].
  cbv zeta. fold score.
  apply (scored_sorted score); [|apply memory.sort_desc_sorted].
  rewrite memory.sort_desc_perm.
  apply Forall_forall. intros p Hp.
  by apply list_elem_of_fmap in Hp as (item & -> & _).
Qed.

Lemma context_header_nonempty (n : nat) : context_header n <> [].
Proof. unfold context_header. by vm_compute (u "📝 **对话历史 (最近"). Qed.

(** X26: whatever the maximum length, given or not, the context of a
    query holds at most five snippets, each the formatted snippet of one
    of the last five turns of the history; and the returned string is
    empty exactly when no snippet was included. *)
Theorem context_of_last_five (self : ConversationMemory)
    (current_query : str) (max_length : option Z) :
  let parts := context_parts_for self current_query max_length in
  length parts <= 5
  /\ Forall (fun part =>
               exists turn, turn ∈ slice_last 5 (conversation_history self)
                            /\ part = _format_context_turn turn)
            parts
  /\ (get_context_for_query self current_query max_length = [] <-> parts = []).
Proof.
  intros parts.
  destruct (memory.collect_context_prefix
              (effective_max_length self max_length)
              (_get_relevant_context self current_query) [] 0%Z)
    as (n & Hparts & _).
  fold (context_parts_for self current_query max_length) in Hparts.
  fold parts in Hparts. simpl in Hparts.
  assert (Hperm := memory.relevant_context_perm self current_query).
  split; [|split].
  - rewrite Hparts, length_map, length_take.
    rewrite Hperm. pose proof (length_last_five (conversation_history self)).
    lia.
  - rewrite Hparts. apply Forall_forall. intros part Hpart.
    apply list_elem_of_fmap in Hpart as (turn & -> & Hturn).
    exists turn. split; [|done].
    rewrite <- Hperm. eapply elem_of_sublist; [exact Hturn|apply sublist_take].
  - unfold get_context_for_query. fold parts.
    destruct (conversation_history self) as [|turn history] eqn:Hh.
    + split; [|done]. intros _. unfold parts, context_parts_for.
      unfold _get_relevant_context. by rewrite Hh.
    + destruct parts as [|part parts'] eqn:Hp; [done|].
      split; [|done]. intros Hnil.
      apply app_eq_nil in Hnil as [Hnil _].
      by apply context_header_nonempty in Hnil.
Qed.

End context.
